(** * USD mesh writer: a shallow embedding of [usd_writer_mesh.cc]

    The file follows the source top-down in its data (Blender's DNA mesh
    arrays, the intermediate [USDMeshData]) and bottom-up in its functions:
    the three geometry extractors, [get_geometry_data], [assign_materials],
    [write_mesh] and finally [do_write] with its try/catch.

    The geometry extractors are pure and answer [None] when they read
    outside an array.  The writer functions live in a small monad that
    records every call into the USD library and into Blender, in order, and
    carries how the function ends; which USD call throws is a parameter.
    The properties come after the definitions: first the extraction, then
    the calls of [assign_materials], [write_mesh] and [do_write]. *)

From Stdlib Require Import ZArith List Bool Lia QArith Qabs.
From Stdlib Require Import Floats.SpecFloat.
From stdpp Require Import base option list gmap strings sorting.

Local Open Scope Z_scope.

(** ** Machine integers

    [int] and [unsigned int] are 32 bits wide, [short] is 16 bits wide.
    Values are carried as [Z]; a conversion between types writes out the
    wrap-around of the two's complement representation. *)

Definition INT_MAX : Z := 2147483647.
Definition SHRT_MAX : Z := 32767.

(** How many values a [short] has. *)
Definition SHORT_VALUES : nat := Z.to_nat 65536.
Arguments SHORT_VALUES : simpl never.

(** [unsigned int] to [int], as done when a vertex index is pushed into a
    [VtIntArray]. *)
Definition int_of_uint (u : Z) : Z :=
  (u + 2147483648) mod 4294967296 - 2147483648.

(** [int] to [short], as done when [mat_num + 1] is passed to a [short]
    parameter. *)
Definition short_of_int (i : Z) : Z :=
  (i + 32768) mod 65536 - 32768.

(** ** Single-precision floats

    A C [float] is an IEEE 754 binary32 number: 24 bits of precision and
    exponents below 128.  The operations are the ones of the standard
    library's executable specification of IEEE arithmetic, in round to
    nearest even. *)

Definition float32 : Type := spec_float.

Definition f32_prec : Z := 24.
Definition f32_emax : Z := 128.

(** [static_cast<float>(i)] for an integer [i]. *)
Definition float_of_int (i : Z) : float32 :=
  binary_normalize f32_prec f32_emax i 0 false.

Definition f32_mul (x y : float32) : float32 := SFmul f32_prec f32_emax x y.
Definition f32_div (x y : float32) : float32 := SFdiv f32_prec f32_emax x y.

(** The rational number a finite float stands for (zero for the others,
    which the crease computation never produces). *)
Definition Q_of_float32 (x : float32) : Q :=
  match x with
  | S754_finite s m e =>
      let mag := (inject_Z (Z.pos m) * Qpower 2 e)%Q in
      if s then Qopp mag else mag
  | _ => 0%Q
  end.

(** [pxr::UsdGeomMesh::SHARPNESS_INFINITE], a constant of the USD library
    (declared in pxr/usd/usdGeom/mesh.h, defined as [10.0f]). *)
Definition SHARPNESS_INFINITE : float32 := float_of_int 10.

(** ** Blender's mesh arrays (DNA_meshdata_types.h, DNA_mesh_types.h)

    Only the fields this writer reads are kept.  Each struct lives in a
    module of its own, so that [MPoly.totloop] and [Mesh.totloop] keep
    their source names. *)

Module MVert.
(** [float co[3]] *)
Record t : Type := Build { co : float32 * float32 * float32 }.
End MVert.

Module MLoop.
(** [unsigned int v]: the vertex this loop refers to. *)
Record t : Type := Build { v : Z }.
End MLoop.

Module MPoly.
(** [int loopstart; int totloop; short mat_nr] *)
Record t : Type := Build { loopstart : Z; totloop : Z; mat_nr : Z }.
End MPoly.

Module MEdge.
(** [unsigned int v1, v2]; [crease] is an 8-bit weight in 0..255. *)
Record t : Type := Build { v1 : Z; v2 : Z; crease : Z }.
End MEdge.

Module Mesh.
(** The arrays are the memory the [mvert], [mloop], [mpoly] and [medge]
    pointers refer to; the [tot*] fields are the counts the loops run to. *)
Record t : Type := Build {
  totvert : Z;
  totedge : Z;
  totpoly : Z;
  totloop : Z;
  totcol : Z;
  mvert : list MVert.t;
  medge : list MEdge.t;
  mpoly : list MPoly.t;
  mloop : list MLoop.t
}.
End Mesh.

(** Reading [a[i]].  C leaves a read outside the array undefined; the model
    answers [None] there, and every function that reads propagates it. *)
Definition array_get {A : Type} (a : list A) (i : Z) : option A :=
  if i <? 0 then None else a !! Z.to_nat i.

(** ** USD values *)

Record GfVec3f : Type := MkGfVec3f { gf_x : float32; gf_y : float32; gf_z : float32 }.

(** The [pxr::GfVec3f] constructor from a pointer to three floats: they are
    copied. *)
Definition GfVec3f_of_array (co : float32 * float32 * float32) : GfVec3f :=
  let '(x, y, z) := co in MkGfVec3f x y z.

(** [struct USDMeshData].  [face_groups] is a [std::map<short, VtIntArray>]. *)
Record USDMeshData : Type := MkUSDMeshData {
  points : list GfVec3f;
  face_vertex_counts : list Z;
  face_indices : list Z;
  face_groups : gmap Z (list Z);
  crease_lengths : list Z;
  crease_vertex_indices : list Z;
  crease_sharpnesses : list float32
}.

(** A default-constructed [USDMeshData]. *)
Definition USDMeshData_empty : USDMeshData :=
  MkUSDMeshData [] [] [] ∅ [] [] [].

Definition push_point (d : USDMeshData) (p : GfVec3f) : USDMeshData :=
  MkUSDMeshData (points d ++ [p]) (face_vertex_counts d) (face_indices d)
    (face_groups d) (crease_lengths d) (crease_vertex_indices d)
    (crease_sharpnesses d).

Definition push_face_vertex_count (d : USDMeshData) (n : Z) : USDMeshData :=
  MkUSDMeshData (points d) (face_vertex_counts d ++ [n]) (face_indices d)
    (face_groups d) (crease_lengths d) (crease_vertex_indices d)
    (crease_sharpnesses d).

Definition push_face_index (d : USDMeshData) (i : Z) : USDMeshData :=
  MkUSDMeshData (points d) (face_vertex_counts d) (face_indices d ++ [i])
    (face_groups d) (crease_lengths d) (crease_vertex_indices d)
    (crease_sharpnesses d).

(** [groups[key].push_back(i)]: [operator[]] of [std::map] inserts an empty
    array when the key is new. *)
Definition map_push_back (groups : gmap Z (list Z)) (key i : Z) : gmap Z (list Z) :=
  <[key := default [] (groups !! key) ++ [i]]> groups.

Definition push_face_group (d : USDMeshData) (key i : Z) : USDMeshData :=
  MkUSDMeshData (points d) (face_vertex_counts d) (face_indices d)
    (map_push_back (face_groups d) key i) (crease_lengths d)
    (crease_vertex_indices d) (crease_sharpnesses d).

Definition push_crease (d : USDMeshData) (a b : Z) (sharpness : float32) : USDMeshData :=
  MkUSDMeshData (points d) (face_vertex_counts d) (face_indices d)
    (face_groups d) (crease_lengths d ++ [2])
    (crease_vertex_indices d ++ [a] ++ [b])
    (crease_sharpnesses d ++ [sharpness]).

(** ** Geometry extraction

    Each [for] loop is a recursion on the number of iterations left, next
    to the loop counter.  The [reserve] calls change no value and are left
    out; [push_back] always finds room. *)

(** The loop of [get_vertices]: [n] iterations are left, [i] is the counter. *)
Fixpoint get_vertices_loop (verts : list MVert.t) (n : nat) (i : Z)
    (d : USDMeshData) : option USDMeshData :=
  match n with
  | O => Some d
  | S n' =>
      vert ← array_get verts i;
      get_vertices_loop verts n' (i + 1)
        (push_point d (GfVec3f_of_array (MVert.co vert)))
  end.

Definition get_vertices (mesh : Mesh.t) (d : USDMeshData) : option USDMeshData :=
  get_vertices_loop (Mesh.mvert mesh) (Z.to_nat (Mesh.totvert mesh)) 0 d.

(** The inner loop of [get_loops_polys]; [pos] is the offset of the [loop]
    pointer in [mloop]. *)
Fixpoint get_poly_loops (mloop : list MLoop.t) (n : nat) (pos : Z)
    (d : USDMeshData) : option USDMeshData :=
  match n with
  | O => Some d
  | S n' =>
      loop ← array_get mloop pos;
      get_poly_loops mloop n' (pos + 1)
        (push_face_index d (int_of_uint (MLoop.v loop)))
  end.

(** The outer loop of [get_loops_polys]. *)
Fixpoint get_loops_polys_loop (mesh : Mesh.t) (construct_face_groups : bool)
    (n : nat) (i : Z) (d : USDMeshData) : option USDMeshData :=
  match n with
  | O => Some d
  | S n' =>
      mpoly ← array_get (Mesh.mpoly mesh) i;
      let d1 := push_face_vertex_count d (MPoly.totloop mpoly) in
      d2 ← get_poly_loops (Mesh.mloop mesh) (Z.to_nat (MPoly.totloop mpoly))
              (MPoly.loopstart mpoly) d1;
      let d3 := if construct_face_groups
                then push_face_group d2 (MPoly.mat_nr mpoly) i
                else d2 in
      get_loops_polys_loop mesh construct_face_groups n' (i + 1) d3
  end.

Definition get_loops_polys (mesh : Mesh.t) (d : USDMeshData) : option USDMeshData :=
  let construct_face_groups := 1 <? Mesh.totcol mesh in
  get_loops_polys_loop mesh construct_face_groups
    (Z.to_nat (Mesh.totpoly mesh)) 0 d.

(** [const float factor = 1.0f / 255.0f] *)
Definition crease_factor : float32 :=
  f32_div (float_of_int 1) (float_of_int 255).

(** The sharpness [get_creases] computes for a non-zero crease weight. *)
Definition crease_sharpness (crease : Z) : float32 :=
  if crease =? 255 then SHARPNESS_INFINITE
  else f32_mul (float_of_int crease) crease_factor.

Fixpoint get_creases_loop (medge : list MEdge.t) (n : nat) (edge_idx : Z)
    (d : USDMeshData) : option USDMeshData :=
  match n with
  | O => Some d
  | S n' =>
      edge ← array_get medge edge_idx;
      if MEdge.crease edge =? 0
      then get_creases_loop medge n' (edge_idx + 1) d
      else
        let sharpness := crease_sharpness (MEdge.crease edge) in
        get_creases_loop medge n' (edge_idx + 1)
          (push_crease d (int_of_uint (MEdge.v1 edge))
             (int_of_uint (MEdge.v2 edge)) sharpness)
  end.

Definition get_creases (mesh : Mesh.t) (d : USDMeshData) : option USDMeshData :=
  get_creases_loop (Mesh.medge mesh) (Z.to_nat (Mesh.totedge mesh)) 0 d.

Definition get_geometry_data (mesh : Mesh.t) (d : USDMeshData) : option USDMeshData :=
  d1 ← get_vertices mesh d;
  d2 ← get_loops_polys mesh d1;
  get_creases mesh d2.

(** ** What a well-formed mesh is

    The counts agree with the arrays, every polygon's loops lie inside the
    loop array, every vertex reference names a vertex, and a crease weight
    is a byte. *)

Definition poly_valid (mesh : Mesh.t) (p : MPoly.t) : Prop :=
  0 <= MPoly.loopstart p /\ 0 <= MPoly.totloop p /\
  MPoly.loopstart p + MPoly.totloop p <= Mesh.totloop mesh.

Definition loop_valid (mesh : Mesh.t) (l : MLoop.t) : Prop :=
  0 <= MLoop.v l < Mesh.totvert mesh.

Definition edge_valid (mesh : Mesh.t) (e : MEdge.t) : Prop :=
  0 <= MEdge.v1 e < Mesh.totvert mesh /\
  0 <= MEdge.v2 e < Mesh.totvert mesh /\
  0 <= MEdge.crease e <= 255.

Definition mesh_valid (mesh : Mesh.t) : Prop :=
  Mesh.totvert mesh = Z.of_nat (length (Mesh.mvert mesh)) /\
  Mesh.totvert mesh <= INT_MAX /\
  Mesh.totedge mesh = Z.of_nat (length (Mesh.medge mesh)) /\
  Mesh.totpoly mesh = Z.of_nat (length (Mesh.mpoly mesh)) /\
  Mesh.totloop mesh = Z.of_nat (length (Mesh.mloop mesh)) /\
  Forall (poly_valid mesh) (Mesh.mpoly mesh) /\
  Forall (loop_valid mesh) (Mesh.mloop mesh) /\
  Forall (edge_valid mesh) (Mesh.medge mesh).

#[global] Instance mesh_valid_dec (mesh : Mesh.t) : Decision (mesh_valid mesh).
Proof. unfold mesh_valid, poly_valid, loop_valid, edge_valid. apply _. Defined.

(** ** The buffers in the words of the specification *)

(** The vertex references of one polygon: [totloop] loops from [loopstart]. *)
Definition poly_vertices (mloop : list MLoop.t) (p : MPoly.t) : list Z :=
  MLoop.v <$> take (Z.to_nat (MPoly.totloop p))
                (drop (Z.to_nat (MPoly.loopstart p)) mloop).

(** Appending each polygon's index at the key of its material slot, the
    first polygon having index [i]. *)
Fixpoint group_faces_from (ps : list MPoly.t) (i : Z) (g : gmap Z (list Z))
    : gmap Z (list Z) :=
  match ps with
  | [] => g
  | p :: ps' => group_faces_from ps' (i + 1) (map_push_back g (MPoly.mat_nr p) i)
  end.

(** The indices of the polygons of slot [k], the first polygon having
    index [i]. *)
Fixpoint polys_in_slot_from (ps : list MPoly.t) (i : Z) (k : Z) : list Z :=
  match ps with
  | [] => []
  | p :: ps' =>
      (if decide (MPoly.mat_nr p = k) then [i] else [])
        ++ polys_in_slot_from ps' (i + 1) k
  end.

(** What one edge adds to the three crease arrays. *)
Definition crease_run_indices (e : MEdge.t) : list Z :=
  if MEdge.crease e =? 0 then [] else [MEdge.v1 e; MEdge.v2 e].

Definition crease_run_length (e : MEdge.t) : list Z :=
  if MEdge.crease e =? 0 then [] else [2].

Definition crease_run_sharpness (e : MEdge.t) : list float32 :=
  if MEdge.crease e =? 0 then [] else [crease_sharpness (MEdge.crease e)].

(** The buffers [get_geometry_data] is to fill, in the words of the
    specification. *)
Definition spec_geometry_data (mesh : Mesh.t) : USDMeshData :=
  MkUSDMeshData
    ((fun vert => GfVec3f_of_array (MVert.co vert)) <$> Mesh.mvert mesh)
    (MPoly.totloop <$> Mesh.mpoly mesh)
    (concat (poly_vertices (Mesh.mloop mesh) <$> Mesh.mpoly mesh))
    (if 1 <? Mesh.totcol mesh
     then group_faces_from (Mesh.mpoly mesh) 0 ∅ else ∅)
    (Mesh.medge mesh ≫= crease_run_length)
    (Mesh.medge mesh ≫= crease_run_indices)
    (Mesh.medge mesh ≫= crease_run_sharpness).

(** The tolerance of the sharpness scaling: the division that gives
    [crease_factor] and the multiplication round once each, so the result
    is within a relative error of 2^-23 of the exact quotient. *)
Definition sharpness_within_tolerance (w : Z) : bool :=
  Qle_bool (Qabs (Q_of_float32 (crease_sharpness w) - (w # 255)))
           ((w # 255) * (1 # 8388608)).

(** Buffers appended to a [USDMeshData]. *)
Definition append_points (d : USDMeshData) (l : list GfVec3f) : USDMeshData :=
  MkUSDMeshData (points d ++ l) (face_vertex_counts d) (face_indices d)
    (face_groups d) (crease_lengths d) (crease_vertex_indices d)
    (crease_sharpnesses d).

Definition append_face_indices (d : USDMeshData) (l : list Z) : USDMeshData :=
  MkUSDMeshData (points d) (face_vertex_counts d) (face_indices d ++ l)
    (face_groups d) (crease_lengths d) (crease_vertex_indices d)
    (crease_sharpnesses d).

Definition append_polys (d : USDMeshData) (counts indices : list Z)
    (groups : gmap Z (list Z)) : USDMeshData :=
  MkUSDMeshData (points d) (face_vertex_counts d ++ counts)
    (face_indices d ++ indices) groups (crease_lengths d)
    (crease_vertex_indices d) (crease_sharpnesses d).

Definition append_creases (d : USDMeshData) (lengths indices : list Z)
    (sharpnesses : list float32) : USDMeshData :=
  MkUSDMeshData (points d) (face_vertex_counts d) (face_indices d)
    (face_groups d) (crease_lengths d ++ lengths)
    (crease_vertex_indices d ++ indices)
    (crease_sharpnesses d ++ sharpnesses).

(** The sum of an [int] array. *)
Definition sum_list (l : list Z) : Z := foldr Z.add 0 l.

(** ** Sample inputs

    A quad with two material slots and four edges of weights 0, 255, 128
    and 1; a strip of three triangles spread over the slots 0 and 2; and the
    collaborators they are exported with. *)

Definition f32 (i : Z) : float32 := float_of_int i.

Definition quad : Mesh.t :=
  Mesh.Build 4 4 1 4 2
    [MVert.Build (f32 0, f32 0, f32 0); MVert.Build (f32 1, f32 0, f32 0);
     MVert.Build (f32 1, f32 1, f32 0); MVert.Build (f32 0, f32 1, f32 0)]
    [MEdge.Build 0 1 0; MEdge.Build 1 2 255; MEdge.Build 2 3 128;
     MEdge.Build 3 0 1]
    [MPoly.Build 0 4 1]
    [MLoop.Build 0; MLoop.Build 1; MLoop.Build 2; MLoop.Build 3].

Definition strip : Mesh.t :=
  Mesh.Build 5 0 3 9 3
    [MVert.Build (f32 0, f32 0, f32 0); MVert.Build (f32 1, f32 0, f32 0);
     MVert.Build (f32 0, f32 1, f32 0); MVert.Build (f32 1, f32 1, f32 0);
     MVert.Build (f32 0, f32 2, f32 0)]
    []
    [MPoly.Build 0 3 2; MPoly.Build 3 3 0; MPoly.Build 6 3 2]
    [MLoop.Build 0; MLoop.Build 1; MLoop.Build 2;
     MLoop.Build 1; MLoop.Build 3; MLoop.Build 2;
     MLoop.Build 2; MLoop.Build 3; MLoop.Build 4].

(** ** Blender objects and materials (DNA_object_types.h, DNA_material_types.h) *)

Module Material.
(** [id.name] and [blend_flag]. *)
Record t : Type := Build { id_name : string; blend_flag : Z }.
End Material.

Module Object.
(** [runtime_mesh_eval] is [runtime.mesh_eval], a pointer that may be
    [NULL]. *)
Record t : Type := Build {
  id_name : string;
  type : Z;
  totcol : Z;
  runtime_mesh_eval : option Mesh.t
}.
End Object.

Record HierarchyContext : Type := MkHierarchyContext { object : Object.t }.

(** ** The USD side *)

(** A time code is a [double]. *)
Definition UsdTimeCode : Type := spec_float.

(** A prim of the stage is known by its path. *)
Definition SdfPath : Type := string.

(** What [ensure_usd_material] hands back: the material prim, of which the
    writer reads the path and its last element, the name token. *)
Record UsdShadeMaterial : Type := MkUsdShadeMaterial {
  material_path : SdfPath;
  material_name_token : string
}.

(** The prim a material is bound to: the mesh itself, or one of its
    geometry subsets. *)
Inductive UsdPrim : Type :=
  | MeshPrim (path : SdfPath)
  | SubsetPrim (mesh_path : SdfPath) (subset_name : string).

(** The members of [USDAbstractWriter] that this file reads. *)
Record USDAbstractWriter : Type := MkUSDAbstractWriter {
  usd_path_ : SdfPath;
  frame_has_been_written_ : bool;
  export_time_code : UsdTimeCode
}.

Definition get_export_time_code (w : USDAbstractWriter) : UsdTimeCode :=
  export_time_code w.

(** Every call that leaves this file, in the words of the source. *)
Inductive Event : Type :=
  | EvPrintfSkipping (name : string) (type : Z)
  | EvBKE_id_free (mesh : Mesh.t)
  | EvDefine (path : SdfPath)
  | EvSetPoints (mesh : SdfPath) (value : list GfVec3f) (timecode : UsdTimeCode)
  | EvSetFaceVertexCounts (mesh : SdfPath) (value : list Z) (timecode : UsdTimeCode)
  | EvSetFaceVertexIndices (mesh : SdfPath) (value : list Z) (timecode : UsdTimeCode)
  | EvSetCreaseLengths (mesh : SdfPath) (value : list Z) (timecode : UsdTimeCode)
  | EvSetCreaseIndices (mesh : SdfPath) (value : list Z) (timecode : UsdTimeCode)
  | EvSetCreaseSharpnesses (mesh : SdfPath) (value : list float32) (timecode : UsdTimeCode)
  | EvEnsureUsdMaterial (material : Material.t)
  | EvBind (material : UsdShadeMaterial) (prim : UsdPrim)
  | EvCreateDoubleSidedAttr (mesh : SdfPath) (value : bool)
  | EvCreateMaterialBindSubset (mesh : SdfPath) (name : string) (face_indices : list Z).

(** A C++ exception, known by what it says. *)
Definition exn : Type := string.

(** How a computation ends: it returns; it throws; it has read outside an
    array, after which C++ promises nothing; or it is caught in a loop that
    never ends.  No handler runs in the last two cases. *)
Inductive outcome (A : Type) : Type :=
  | Returned (a : A)
  | Threw (e : exn)
  | Undefined
  | Diverged.
Arguments Returned {A} a.
Arguments Threw {A} e.
Arguments Undefined {A}.
Arguments Diverged {A}.

(** The same ending with another returned value. *)
Definition outcome_map {A B : Type} (f : A -> B) (o : outcome A) : outcome B :=
  match o with
  | Returned a => Returned (f a)
  | Threw e => Threw e
  | Undefined => Undefined
  | Diverged => Diverged
  end.

(** A computation is given the calls made so far and answers with the calls
    it makes itself, oldest first, and its outcome. *)
Definition M (A : Type) : Type := list Event -> list Event * outcome A.

Definition ret {A : Type} (a : A) : M A := fun _ => ([], Returned a).

Definition bind {A B : Type} (m : M A) (f : A -> M B) : M B :=
  fun h =>
    let '(l1, o) := m h in
    match o with
    | Returned a => let '(l2, o2) := f a (h ++ l1) in (l1 ++ l2, o2)
    | Threw e => (l1, Threw e)
    | Undefined => (l1, Undefined)
    | Diverged => (l1, Diverged)
    end.

Definition throw {A : Type} (e : exn) : M A := fun _ => ([], Threw e).

Definition undefined {A : Type} : M A := fun _ => ([], Undefined).

Definition diverge {A : Type} : M A := fun _ => ([], Diverged).

(** [try { body } catch (...) { handler }] *)
Definition try_catch {A : Type} (body : M A) (handler : exn -> M A) : M A :=
  fun h =>
    let '(l1, o) := body h in
    match o with
    | Threw e => let '(l2, o2) := handler e (h ++ l1) in (l1 ++ l2, o2)
    | _ => (l1, o)
    end.

(** A call into C code: it is made and it returns. *)
Definition call_c (ev : Event) : M unit := fun _ => ([ev], Returned tt).

(** A value read from an array. *)
Definition of_option {A : Type} (o : option A) : M A :=
  match o with
  | Some a => ret a
  | None => undefined
  end.

#[global] Instance M_ret : MRet M := @ret.
#[global] Instance M_bind : MBind M := fun A B f m => bind m f.

(** The calls of a trace that release a mesh, and the meshes released. *)
Definition freed_meshes (log : list Event) : list Mesh.t :=
  omap (fun ev => match ev with EvBKE_id_free mesh => Some mesh | _ => None end) log.

(** The values the double-sided attribute is created with. *)
Definition double_sided_writes (log : list Event) : list bool :=
  omap (fun ev => match ev with EvCreateDoubleSidedAttr _ b => Some b | _ => None end) log.

(** The materials bound to the whole mesh. *)
Definition mesh_bindings (log : list Event) : list UsdShadeMaterial :=
  omap (fun ev => match ev with EvBind m (MeshPrim _) => Some m | _ => None end) log.

(** The geometry subsets created: name and polygon indices. *)
Definition subsets_created (log : list Event) : list (string * list Z) :=
  omap (fun ev => match ev with
                  | EvCreateMaterialBindSubset _ name fi => Some (name, fi)
                  | _ => None
                  end) log.

(** The materials bound to geometry subsets: subset name and material. *)
Definition subset_bindings (log : list Event) : list (string * UsdShadeMaterial) :=
  omap (fun ev => match ev with
                  | EvBind m (SubsetPrim _ name) => Some (name, m)
                  | _ => None
                  end) log.

(** A call that belongs to material assignment. *)
Definition is_material_event (ev : Event) : bool :=
  match ev with
  | EvEnsureUsdMaterial _ | EvBind _ _ | EvCreateDoubleSidedAttr _ _
  | EvCreateMaterialBindSubset _ _ _ => true
  | _ => false
  end.

(** A call that defines the mesh prim or writes one of its geometry
    attributes. *)
Definition is_geometry_event (ev : Event) : bool :=
  match ev with
  | EvDefine _ | EvSetPoints _ _ _ | EvSetFaceVertexCounts _ _ _
  | EvSetFaceVertexIndices _ _ _ | EvSetCreaseLengths _ _ _
  | EvSetCreaseIndices _ _ _ | EvSetCreaseSharpnesses _ _ _ => true
  | _ => false
  end.

(** A computation all of whose calls satisfy [P], however it ends. *)
Definition emits {A : Type} (P : Event -> Prop) (m : M A) : Prop :=
  forall h : list Event, Forall P (m h).1.

(** The entries of a [std::map] in the order a range-for visits them:
    ascending keys. *)
Definition key_le (a b : Z * list Z) : Prop := a.1 <= b.1.

#[global] Instance key_le_dec (a b : Z * list Z) : Decision (key_le a b) :=
  Z_le_dec a.1 b.1.

Definition map_in_key_order (m : gmap Z (list Z)) : list (Z * list Z) :=
  merge_sort key_le (map_to_list m).

(** The interface of [USDGenericMeshWriter]: a subclass says where the mesh
    comes from and whether it is a temporary.  The [bool] is the
    [needsfree] reference, passed in and handed back. *)
Class USDGenericMeshWriter : Type := {
  get_export_mesh : Object.t -> bool -> option Mesh.t * bool
}.

(** [USDMeshWriter::get_export_mesh]: the evaluated mesh of the object;
    [r_needsfree] is left alone. *)
Definition USDMeshWriter : USDGenericMeshWriter :=
  {| get_export_mesh := fun object_eval r_needsfree =>
       (Object.runtime_mesh_eval object_eval, r_needsfree) |}.

(** What the writer is handed from outside this file. *)
Class Collaborators : Type := {
  (** Which calls into the USD library throw, given the calls made before.
      The theorems hold for every such choice. *)
  throws : list Event -> Event -> option exn;
  (** [give_current_material] of BKE_material.h: the material in a slot of
      the object, slots counted from 1, or [NULL]. *)
  give_current_material : Object.t -> Z -> option Material.t;
  (** What [USDAbstractWriter::ensure_usd_material] returns: the USD
      material of a Blender material. *)
  usd_material_of : Material.t -> UsdShadeMaterial;
  (** The bit of [blend_flag] that asks for backface culling. *)
  MA_BL_CULL_BACKFACE : Z
}.

Section Writer.

Context {env : Collaborators} {writer_class : USDGenericMeshWriter}.

(** A call into the USD library. *)
Definition call (ev : Event) : M unit :=
  fun h => ([ev], match throws h ev with
                  | Some e => Threw e
                  | None => Returned tt
                  end).

Definition ensure_usd_material (material : Material.t) : M UsdShadeMaterial :=
  call (EvEnsureUsdMaterial material) ;; ret (usd_material_of material).

(** The first loop of [assign_materials],
    [for (short mat_num = 0; mat_num < totcol; mat_num++)], from the test of
    its condition on; it answers [mesh_material_bound].  The counter is a
    [short] and the slot count an [int], so the increment wraps around when
    the count is beyond [SHRT_MAX].  An iteration changes nothing but the
    counter: a loop that is still running after [SHORT_VALUES] iterations
    has come back to a counter it had before and never ends, which is what
    running out of [fuel] stands for. *)
Fixpoint bind_first_material (context : HierarchyContext) (usd_mesh : SdfPath)
    (fuel : nat) (mat_num : Z) : M bool :=
  match fuel with
  | O => diverge
  | S fuel' =>
      if mat_num <? Object.totcol (object context) then
        match give_current_material (object context) (short_of_int (mat_num + 1)) with
        | None =>
            bind_first_material context usd_mesh fuel' (short_of_int (mat_num + 1))
        | Some material =>
            usd_material ← ensure_usd_material material;
            call (EvBind usd_material (MeshPrim usd_mesh)) ;;
            call (EvCreateDoubleSidedAttr usd_mesh
                    (Z.land (Material.blend_flag material) MA_BL_CULL_BACKFACE =? 0)) ;;
            ret true
        end
      else ret false
  end.

(** The second loop of [assign_materials], over the face groups. *)
Fixpoint define_subsets (context : HierarchyContext) (usd_mesh : SdfPath)
    (groups : list (Z * list Z)) : M unit :=
  match groups with
  | [] => ret tt
  | (material_number, face_indices) :: rest =>
      match give_current_material (object context)
              (short_of_int (material_number + 1)) with
      | None => define_subsets context usd_mesh rest
      | Some material =>
          usd_material ← ensure_usd_material material;
          let material_name := material_name_token usd_material in
          call (EvCreateMaterialBindSubset usd_mesh material_name face_indices) ;;
          call (EvBind usd_material (SubsetPrim usd_mesh material_name)) ;;
          define_subsets context usd_mesh rest
      end
  end.

Definition assign_materials (context : HierarchyContext) (usd_mesh : SdfPath)
    (usd_face_groups : gmap Z (list Z)) : M unit :=
  if Object.totcol (object context) =? 0 then ret tt
  else
    mesh_material_bound ←
      bind_first_material context usd_mesh (S SHORT_VALUES) 0;
    (if negb mesh_material_bound
     then call (EvCreateDoubleSidedAttr usd_mesh true)
     else ret tt) ;;
    if negb mesh_material_bound || (size usd_face_groups <? 2)%nat
    then ret tt
    else define_subsets context usd_mesh (map_in_key_order usd_face_groups).

Definition write_mesh (w : USDAbstractWriter) (context : HierarchyContext)
    (mesh : Mesh.t) : M unit :=
  let timecode := get_export_time_code w in
  let usd_mesh := usd_path_ w in
  call (EvDefine usd_mesh) ;;
  usd_mesh_data ← of_option (get_geometry_data mesh USDMeshData_empty);
  call (EvSetPoints usd_mesh (points usd_mesh_data) timecode) ;;
  call (EvSetFaceVertexCounts usd_mesh (face_vertex_counts usd_mesh_data) timecode) ;;
  call (EvSetFaceVertexIndices usd_mesh (face_indices usd_mesh_data) timecode) ;;
  (match crease_lengths usd_mesh_data with
   | [] => ret tt
   | _ :: _ =>
       call (EvSetCreaseLengths usd_mesh (crease_lengths usd_mesh_data) timecode) ;;
       call (EvSetCreaseIndices usd_mesh (crease_vertex_indices usd_mesh_data) timecode) ;;
       call (EvSetCreaseSharpnesses usd_mesh (crease_sharpnesses usd_mesh_data) timecode)
   end) ;;
  if frame_has_been_written_ w then ret tt
  else assign_materials context usd_mesh (face_groups usd_mesh_data).

(** [BKE_id_free(NULL, mesh)] *)
Definition free_export_mesh (mesh : Mesh.t) : M unit :=
  call_c (EvBKE_id_free mesh).

Definition do_write (w : USDAbstractWriter) (context : HierarchyContext) : M unit :=
  let object_eval := object context in
  let needsfree := false in
  let '(mesh, needsfree) := get_export_mesh object_eval needsfree in
  match mesh with
  | None =>
      call_c (EvPrintfSkipping (Object.id_name object_eval) (Object.type object_eval))
  | Some mesh =>
      try_catch
        (write_mesh w context mesh ;;
         if needsfree then free_export_mesh mesh else ret tt)
        (fun e =>
           (if needsfree then free_export_mesh mesh else ret tt) ;;
           throw e)
  end.

(** *** The calls of each function, as a list

    Which calls a function makes does not depend on what the USD library
    answers, only on whether a call throws; so each function has a
    script, the calls it makes when none throws, and what it does is that
    script run up to the first call that throws. *)

Fixpoint run_calls (evs : list Event) (h : list Event)
    : list Event * outcome unit :=
  match evs with
  | [] => ([], Returned tt)
  | ev :: rest =>
      match throws h ev with
      | Some e => ([ev], Threw e)
      | None => let '(l, o) := run_calls rest (h ++ [ev]) in (ev :: l, o)
      end
  end.

(** The material the first loop of [assign_materials] stops at, when its
    counter does not wrap around: [n] slots are left to look at. *)
Fixpoint first_material (context : HierarchyContext) (n : nat) (mat_num : Z)
    : option Material.t :=
  match n with
  | O => None
  | S n' =>
      match give_current_material (object context) (short_of_int (mat_num + 1)) with
      | None => first_material context n' (mat_num + 1)
      | Some material => Some material
      end
  end.

Definition bound_material (context : HierarchyContext) : option Material.t :=
  first_material context (Z.to_nat (Object.totcol (object context))) 0.

Definition bind_script (usd_mesh : SdfPath) (material : Material.t) : list Event :=
  [EvEnsureUsdMaterial material;
   EvBind (usd_material_of material) (MeshPrim usd_mesh);
   EvCreateDoubleSidedAttr usd_mesh
     (Z.land (Material.blend_flag material) MA_BL_CULL_BACKFACE =? 0)].

(** The material a face group is given, if its slot holds one. *)
Definition group_material (context : HierarchyContext) (group : Z * list Z)
    : option Material.t :=
  give_current_material (object context) (short_of_int (group.1 + 1)).

Definition subset_script (context : HierarchyContext) (usd_mesh : SdfPath)
    (group : Z * list Z) : list Event :=
  match group_material context group with
  | None => []
  | Some material =>
      let usd_material := usd_material_of material in
      let material_name := material_name_token usd_material in
      [EvEnsureUsdMaterial material;
       EvCreateMaterialBindSubset usd_mesh material_name group.2;
       EvBind usd_material (SubsetPrim usd_mesh material_name)]
  end.

Definition assign_materials_script (context : HierarchyContext)
    (usd_mesh : SdfPath) (usd_face_groups : gmap Z (list Z)) : list Event :=
  if Object.totcol (object context) =? 0 then []
  else
    match bound_material context with
    | None => [EvCreateDoubleSidedAttr usd_mesh true]
    | Some material =>
        bind_script usd_mesh material ++
        (if (size usd_face_groups <? 2)%nat then []
         else map_in_key_order usd_face_groups ≫= subset_script context usd_mesh)
    end.

Definition geometry_script (w : USDAbstractWriter) (d : USDMeshData) : list Event :=
  let timecode := get_export_time_code w in
  let usd_mesh := usd_path_ w in
  [EvDefine usd_mesh;
   EvSetPoints usd_mesh (points d) timecode;
   EvSetFaceVertexCounts usd_mesh (face_vertex_counts d) timecode;
   EvSetFaceVertexIndices usd_mesh (face_indices d) timecode] ++
  match crease_lengths d with
  | [] => []
  | _ :: _ =>
      [EvSetCreaseLengths usd_mesh (crease_lengths d) timecode;
       EvSetCreaseIndices usd_mesh (crease_vertex_indices d) timecode;
       EvSetCreaseSharpnesses usd_mesh (crease_sharpnesses d) timecode]
  end.

Definition write_mesh_script (w : USDAbstractWriter) (context : HierarchyContext)
    (d : USDMeshData) : list Event :=
  geometry_script w d ++
  (if frame_has_been_written_ w then []
   else assign_materials_script context (usd_path_ w) (face_groups d)).

(** A computation that makes the calls of a script and then returns [a]. *)
Definition scripted {A : Type} (m : M A) (s : list Event) (a : A) : Prop :=
  forall h : list Event,
    m h = (let '(l, o) := run_calls s h in (l, outcome_map (fun _ => a) o)).

(** No call into the USD library throws. *)
Definition quiet : Prop := forall (h : list Event) (ev : Event), throws h ev = None.

End Writer.

(** The slots of an object as a list: slot [act] is element [act - 1]. *)
Definition slots_lookup (slots : list (option Material.t)) (ob : Object.t)
    (act : Z) : option Material.t :=
  if (act <=? 0) || (Object.totcol ob <? act) then None
  else mjoin (slots !! Z.to_nat (act - 1)).

Definition sample_usd_material (m : Material.t) : UsdShadeMaterial :=
  MkUsdShadeMaterial ("/_materials/" +:+ Material.id_name m) (Material.id_name m).

Definition MAred : Material.t := Material.Build "MAred" 4.
Definition MAblue : Material.t := Material.Build "MAblue" 0.

(** No call throws; slot 1 is empty, slot 2 holds a culling material. *)
Definition quiet_env : Collaborators :=
  {| throws := fun _ _ => None;
     give_current_material := slots_lookup [None; Some MAred];
     usd_material_of := sample_usd_material;
     MA_BL_CULL_BACKFACE := 4 |}.

(** Writing the face vertex indices throws. *)
Definition faulty_env : Collaborators :=
  {| throws := fun _ ev =>
       match ev with
       | EvSetFaceVertexIndices _ _ _ => Some "write failed"
       | _ => None
       end;
     give_current_material := slots_lookup [None; Some MAred];
     usd_material_of := sample_usd_material;
     MA_BL_CULL_BACKFACE := 4 |}.

(** Three slots: a culling material, an empty slot, a second material. *)
Definition three_slot_env : Collaborators :=
  {| throws := fun _ _ => None;
     give_current_material := slots_lookup [Some MAred; None; Some MAblue];
     usd_material_of := sample_usd_material;
     MA_BL_CULL_BACKFACE := 4 |}.

(** A subclass whose mesh is a temporary. *)
Definition temporary_mesh_writer : USDGenericMeshWriter :=
  {| get_export_mesh := fun object_eval _ =>
       (Object.runtime_mesh_eval object_eval, true) |}.

Definition OBquad : Object.t := Object.Build "OBquad" 1 2 (Some quad).
Definition OBstrip : Object.t := Object.Build "OBstrip" 1 3 (Some strip).
Definition OBbare : Object.t := Object.Build "OBbare" 1 0 (Some quad).

(** An object with more slots than a [short] counts, all of them empty. *)
Definition OBcrowded : Object.t := Object.Build "OBcrowded" 1 32768 (Some quad).

Definition empty_slots_env : Collaborators :=
  {| throws := fun _ _ => None;
     give_current_material := fun _ _ => None;
     usd_material_of := sample_usd_material;
     MA_BL_CULL_BACKFACE := 4 |}.

Definition first_frame : USDAbstractWriter :=
  MkUSDAbstractWriter "/quad" false (f32 1).
Definition later_frame : USDAbstractWriter :=
  MkUSDAbstractWriter "/quad" true (f32 2).

(** ** Further notions used by the properties beyond the claims *)

(** Two buffers of face groups put together: the lists of a slot that is in
    both are appended. *)
Definition append_groups (g1 g2 : gmap Z (list Z)) : gmap Z (list Z) :=
  union_with (fun l1 l2 => Some (l1 ++ l2)) g1 g2.

(** The sharpness of a weight lies strictly between 0 and 1, and is not the
    sentinel. *)
Definition sharpness_in_range (w : Z) : bool :=
  let s := Q_of_float32 (crease_sharpness w) in
  negb (Qle_bool s 0) && negb (Qle_bool 1 s) &&
  negb (SFeqb (crease_sharpness w) SHARPNESS_INFINITE).

(** The sharpness of the next weight is larger. *)
Definition sharpness_steps_up (w : Z) : bool :=
  negb (Qle_bool (Q_of_float32 (crease_sharpness (w + 1)))
                 (Q_of_float32 (crease_sharpness w))).

(** A call that writes one of the three crease arrays. *)
Definition is_crease_event (ev : Event) : bool :=
  match ev with
  | EvSetCreaseLengths _ _ _ | EvSetCreaseIndices _ _ _
  | EvSetCreaseSharpnesses _ _ _ => true
  | _ => false
  end.

(** The same collaborators with a USD library that never throws. *)
Definition silenced (env : Collaborators) : Collaborators :=
  {| throws := fun _ _ => None;
     give_current_material := @give_current_material env;
     usd_material_of := @usd_material_of env;
     MA_BL_CULL_BACKFACE := @MA_BL_CULL_BACKFACE env |}.

(** * Properties *)

(** ** Arrays and integers *)

Lemma array_get_lookup {A : Type} (a : list A) (i : Z) :
  0 <= i -> array_get a i = a !! Z.to_nat i.
Proof.
  intros Hi. unfold array_get.
  destruct (Z.ltb_spec i 0); [lia | reflexivity].
Qed.

Lemma int_of_uint_small (u : Z) : 0 <= u <= INT_MAX -> int_of_uint u = u.
Proof.
  unfold int_of_uint, INT_MAX. intros Hu.
  rewrite Z.mod_small by lia. lia.
Qed.

Lemma short_of_int_small (i : Z) : - 32768 <= i <= SHRT_MAX -> short_of_int i = i.
Proof.
  unfold short_of_int, SHRT_MAX. intros Hi.
  rewrite Z.mod_small by lia. lia.
Qed.

Lemma sum_list_app (l1 l2 : list Z) :
  sum_list (l1 ++ l2) = sum_list l1 + sum_list l2.
Proof.
  unfold sum_list. induction l1 as [|x l1 IH]; simpl; [reflexivity | lia].
Qed.

Lemma to_nat_succ (i : Z) : 0 <= i -> Z.to_nat (i + 1) = S (Z.to_nat i).
Proof. lia. Qed.

(** ** The three extraction loops *)

Lemma get_vertices_loop_spec (verts : list MVert.t) (n : nat) :
  forall (i : Z) (d : USDMeshData),
    0 <= i -> (Z.to_nat i + n <= length verts)%nat ->
    get_vertices_loop verts n i d =
      Some (append_points d
              ((fun vert => GfVec3f_of_array (MVert.co vert)) <$>
                 take n (drop (Z.to_nat i) verts))).
Proof.
  induction n as [|n IH]; intros i d Hi Hlen; simpl.
  - unfold append_points. rewrite app_nil_r. by destruct d.
  - rewrite array_get_lookup by done.
    destruct (lookup_lt_is_Some_2 verts (Z.to_nat i)) as [vert Hvert]; [lia|].
    rewrite Hvert. simpl.
    rewrite IH by lia.
    rewrite (drop_S _ _ _ Hvert), to_nat_succ by done. simpl.
    unfold append_points, push_point. simpl.
    by rewrite <- app_assoc.
Qed.

Lemma get_poly_loops_spec (mloop : list MLoop.t) (n : nat) :
  forall (pos : Z) (d : USDMeshData),
    0 <= pos -> (Z.to_nat pos + n <= length mloop)%nat ->
    get_poly_loops mloop n pos d =
      Some (append_face_indices d
              ((fun loop => int_of_uint (MLoop.v loop)) <$>
                 take n (drop (Z.to_nat pos) mloop))).
Proof.
  induction n as [|n IH]; intros pos d Hpos Hlen; simpl.
  - unfold append_face_indices. rewrite app_nil_r. by destruct d.
  - rewrite array_get_lookup by done.
    destruct (lookup_lt_is_Some_2 mloop (Z.to_nat pos)) as [loop Hloop]; [lia|].
    rewrite Hloop. simpl.
    rewrite IH by lia.
    rewrite (drop_S _ _ _ Hloop), to_nat_succ by done. simpl.
    unfold append_face_indices, push_face_index. simpl.
    by rewrite <- app_assoc.
Qed.

(** On the loops of a well-formed mesh the conversion to [int] changes
    nothing. *)
Lemma loop_indices_exact (mesh : Mesh.t) (ls : list MLoop.t) :
  Mesh.totvert mesh <= INT_MAX ->
  Forall (loop_valid mesh) ls ->
  (fun loop => int_of_uint (MLoop.v loop)) <$> ls = MLoop.v <$> ls.
Proof.
  intros Hmax Hls. induction Hls as [|l ls Hl _ IH]; [reflexivity|].
  rewrite !fmap_cons, IH. f_equal.
  apply int_of_uint_small. unfold loop_valid in Hl. lia.
Qed.

Lemma Forall_take_drop {A : Type} (P : A -> Prop) (l : list A) (n k : nat) :
  Forall P l -> Forall P (take n (drop k l)).
Proof. intros H. by apply Forall_take, Forall_drop. Qed.

Lemma get_loops_polys_loop_spec (mesh : Mesh.t) (cfg : bool) (n : nat) :
  Mesh.totvert mesh <= INT_MAX ->
  Mesh.totloop mesh = Z.of_nat (length (Mesh.mloop mesh)) ->
  Forall (poly_valid mesh) (Mesh.mpoly mesh) ->
  Forall (loop_valid mesh) (Mesh.mloop mesh) ->
  forall (i : Z) (d : USDMeshData),
    0 <= i -> (Z.to_nat i + n <= length (Mesh.mpoly mesh))%nat ->
    let ps := take n (drop (Z.to_nat i) (Mesh.mpoly mesh)) in
    get_loops_polys_loop mesh cfg n i d =
      Some (append_polys d
              (MPoly.totloop <$> ps)
              (concat (poly_vertices (Mesh.mloop mesh) <$> ps))
              (if cfg then group_faces_from ps i (face_groups d)
               else face_groups d)).
Proof.
  intros Hmax Htot Hpolys Hloops.
  induction n as [|n IH]; intros i d Hi Hlen; simpl.
  - unfold append_polys. rewrite !app_nil_r. by destruct d, cfg.
  - rewrite array_get_lookup by done.
    destruct (lookup_lt_is_Some_2 (Mesh.mpoly mesh) (Z.to_nat i)) as [p Hp]; [lia|].
    rewrite Hp. simpl.
    assert (Hpv : poly_valid mesh p).
    { eapply Forall_lookup_1; [apply Hpolys | apply Hp]. }
    destruct Hpv as (Hstart & Hcount & Hend).
    rewrite get_poly_loops_spec by lia. simpl.
    rewrite (loop_indices_exact mesh) by (try done; by apply Forall_take_drop).
    rewrite (drop_S _ _ _ Hp). simpl.
    destruct cfg.
    + rewrite IH by lia. rewrite to_nat_succ by done.
      unfold append_polys, push_face_group, append_face_indices,
        push_face_vertex_count, poly_vertices. simpl.
      by rewrite <- !app_assoc.
    + rewrite IH by lia. rewrite to_nat_succ by done.
      unfold append_polys, append_face_indices,
        push_face_vertex_count, poly_vertices. simpl.
      by rewrite <- !app_assoc.
Qed.

Lemma get_creases_loop_spec (mesh : Mesh.t) (medge : list MEdge.t) (n : nat) :
  Mesh.totvert mesh <= INT_MAX ->
  Forall (edge_valid mesh) medge ->
  forall (i : Z) (d : USDMeshData),
    0 <= i -> (Z.to_nat i + n <= length medge)%nat ->
    let es := take n (drop (Z.to_nat i) medge) in
    get_creases_loop medge n i d =
      Some (append_creases d
              (es ≫= crease_run_length)
              (es ≫= crease_run_indices)
              (es ≫= crease_run_sharpness)).
Proof.
  intros Hmax Hedges.
  induction n as [|n IH]; intros i d Hi Hlen; simpl.
  - unfold append_creases. rewrite !app_nil_r. by destruct d.
  - rewrite array_get_lookup by done.
    destruct (lookup_lt_is_Some_2 medge (Z.to_nat i)) as [e He]; [lia|].
    rewrite He. simpl.
    assert (Hev : edge_valid mesh e).
    { eapply Forall_lookup_1; [apply Hedges | apply He]. }
    destruct Hev as (Hv1 & Hv2 & Hcr).
    rewrite (drop_S _ _ _ He). simpl.
    unfold crease_run_length at 1, crease_run_indices at 1,
      crease_run_sharpness at 1.
    destruct (MEdge.crease e =? 0) eqn:Hzero.
    + rewrite IH by lia. by rewrite to_nat_succ by done.
    + rewrite IH by lia. rewrite to_nat_succ by done.
      rewrite !int_of_uint_small by lia.
      unfold append_creases, push_crease. simpl.
      by rewrite <- !app_assoc.
Qed.

(** ** Face groups *)

Lemma group_faces_from_lookup (ps : list MPoly.t) :
  forall (i : Z) (g : gmap Z (list Z)) (k : Z),
    group_faces_from ps i g !! k =
      match polys_in_slot_from ps i k with
      | [] => g !! k
      | l => Some (default [] (g !! k) ++ l)
      end.
Proof.
  induction ps as [|p ps IH]; intros i g k; simpl; [reflexivity|].
  rewrite IH. unfold map_push_back.
  destruct (decide (MPoly.mat_nr p = k)) as [->|Hne]; simpl.
  - rewrite lookup_insert_eq. simpl.
    destruct (polys_in_slot_from ps (i + 1) _); simpl.
    + reflexivity.
    + by rewrite <- app_assoc.
  - by rewrite lookup_insert_ne.
Qed.

Lemma elem_of_polys_in_slot_from (ps : list MPoly.t) :
  forall (i k x : Z),
    x ∈ polys_in_slot_from ps i k <->
    exists (j : nat) (p : MPoly.t),
      ps !! j = Some p /\ x = i + Z.of_nat j /\ MPoly.mat_nr p = k.
Proof.
  induction ps as [|p ps IH]; intros i k x; simpl.
  - split; [by intros ?%elem_of_nil | by intros (j & q & ? & _)].
  - rewrite elem_of_app, IH. split.
    + intros [Hhead | (j & q & Hq & -> & Hk)].
      * destruct (decide (MPoly.mat_nr p = k)) as [Hk|Hk].
        -- apply list_elem_of_singleton in Hhead as ->.
           exists 0%nat, p. split; [done | split; [lia | done]].
        -- by apply elem_of_nil in Hhead.
      * exists (S j), q. split; [done | split; [lia | done]].
    + intros ([|j] & q & Hq & -> & Hk); simpl in Hq.
      * left. injection Hq as ->. rewrite decide_True by done.
        apply list_elem_of_singleton. lia.
      * right. exists j, q. split; [done | split; [lia | done]].
Qed.

Lemma polys_in_slot_from_sorted (ps : list MPoly.t) :
  forall (i k : Z), StronglySorted Z.lt (polys_in_slot_from ps i k).
Proof.
  induction ps as [|p ps IH]; intros i k; simpl; [constructor|].
  destruct (decide (MPoly.mat_nr p = k)); simpl; [|apply IH].
  constructor; [apply IH|].
  apply Forall_forall. intros x (j & q & _ & -> & _)%elem_of_polys_in_slot_from.
  lia.
Qed.

(** A group of the map is the non-empty list of the polygons of its slot. *)
Lemma group_faces_lookup_Some (ps : list MPoly.t) (k : Z) (l : list Z) :
  group_faces_from ps 0 ∅ !! k = Some l <->
  l = polys_in_slot_from ps 0 k /\ l <> [].
Proof.
  rewrite group_faces_from_lookup, lookup_empty. simpl.
  destruct (polys_in_slot_from ps 0 k) as [|x xs]; split.
  - discriminate.
  - by intros [-> ?].
  - intros [= <-]. done.
  - by intros [-> _].
Qed.

(** ** The whole extraction, on a well-formed mesh *)

Lemma get_geometry_data_spec (mesh : Mesh.t) :
  mesh_valid mesh ->
  get_geometry_data mesh USDMeshData_empty = Some (spec_geometry_data mesh).
Proof.
  intros (Hvert & Hmax & Hedge & Hpoly & Hloop & Hpolys & Hloops & Hedges).
  unfold get_geometry_data, get_vertices, get_loops_polys, get_creases.
  rewrite get_vertices_loop_spec by lia. simpl.
  rewrite get_loops_polys_loop_spec by (try done; lia). simpl.
  rewrite (get_creases_loop_spec mesh) by (try done; lia). simpl.
  rewrite Hvert, Hedge, Hpoly, !Nat2Z.id, !drop_0, !firstn_all.
  unfold spec_geometry_data.
  by destruct (1 <? Mesh.totcol mesh).
Qed.

Lemma poly_vertices_length (mesh : Mesh.t) (p : MPoly.t) :
  Mesh.totloop mesh = Z.of_nat (length (Mesh.mloop mesh)) ->
  poly_valid mesh p ->
  Z.of_nat (length (poly_vertices (Mesh.mloop mesh) p)) = MPoly.totloop p.
Proof.
  intros Htot (Hstart & Hcount & Hend). unfold poly_vertices.
  rewrite length_fmap, length_take, length_drop. lia.
Qed.

Lemma face_counts_sum (mesh : Mesh.t) (ps : list MPoly.t) :
  Mesh.totloop mesh = Z.of_nat (length (Mesh.mloop mesh)) ->
  Forall (poly_valid mesh) ps ->
  sum_list (MPoly.totloop <$> ps) =
    Z.of_nat (length (concat (poly_vertices (Mesh.mloop mesh) <$> ps))).
Proof.
  intros Htot Hps. induction Hps as [|p ps Hp _ IH]; [reflexivity|].
  rewrite !fmap_cons. simpl. rewrite length_app, Nat2Z.inj_add, <- IH.
  by rewrite (poly_vertices_length mesh).
Qed.

Lemma crease_runs_parallel (es : list MEdge.t) :
  length (es ≫= crease_run_length) = length (es ≫= crease_run_sharpness) /\
  sum_list (es ≫= crease_run_length) =
    Z.of_nat (length (es ≫= crease_run_indices)).
Proof.
  induction es as [|e es [IH1 IH2]]; [done|].
  rewrite !bind_cons, !length_app, sum_list_app, Nat2Z.inj_add, IH1, IH2.
  unfold crease_run_length, crease_run_sharpness, crease_run_indices.
  by destruct (MEdge.crease e =? 0).
Qed.

(** ** The sharpness of a crease weight *)

Lemma sharpness_tolerance_all :
  forallb sharpness_within_tolerance (seqZ 1 254) = true.
Proof. vm_compute. reflexivity. Qed.

Lemma sharpness_tolerance (w : Z) :
  0 < w < 255 ->
  (Qabs (Q_of_float32 (crease_sharpness w) - (w # 255))
     <= (w # 255) * (1 # 8388608))%Q.
Proof.
  intros Hw. apply Qle_bool_iff.
  pose proof sharpness_tolerance_all as Hall.
  rewrite forallb_forall in Hall.
  apply (Hall w). apply list_elem_of_In, elem_of_seqZ. lia.
Qed.

(** ** Geometry extraction: the claims *)

(** Deciding a closed hypothesis by evaluation. *)
Ltac by_evaluation := apply (bool_decide_unpack _); vm_compute; exact I.

(** C2: on a well-formed mesh [get_geometry_data] returns, and [points] is
    the vertex positions copied component by component in index order (as
    many as the mesh has vertices), [face_vertex_counts] is the loop count
    of each polygon in polygon order, and [face_indices] is the
    concatenation, in polygon order, of each polygon's vertex references in
    loop order. *)
Theorem geometry_buffers (mesh : Mesh.t) :
  mesh_valid mesh ->
  exists d : USDMeshData,
    get_geometry_data mesh USDMeshData_empty = Some d /\
    points d = (fun vert => GfVec3f_of_array (MVert.co vert)) <$> Mesh.mvert mesh /\
    Z.of_nat (length (points d)) = Mesh.totvert mesh /\
    (forall (i : nat) (vert : MVert.t),
       Mesh.mvert mesh !! i = Some vert ->
       exists pt : GfVec3f,
         points d !! i = Some pt /\
         (gf_x pt, gf_y pt, gf_z pt) = MVert.co vert) /\
    face_vertex_counts d = MPoly.totloop <$> Mesh.mpoly mesh /\
    face_indices d =
      concat ((fun p =>
                 MLoop.v <$> take (Z.to_nat (MPoly.totloop p))
                               (drop (Z.to_nat (MPoly.loopstart p))
                                  (Mesh.mloop mesh)))
                <$> Mesh.mpoly mesh).
Proof.
  intros Hvalid. exists (spec_geometry_data mesh).
  split; [by apply get_geometry_data_spec|].
  destruct Hvalid as (Hvert & _).
  simpl. repeat split.
  - by rewrite length_fmap.
  - intros i vert Hi.
    exists (GfVec3f_of_array (MVert.co vert)).
    rewrite list_lookup_fmap, Hi. split; [done|].
    by destruct (MVert.co vert) as [[x y] z].
Qed.

Lemma geometry_buffers_witness :
  mesh_valid quad /\
  exists d : USDMeshData,
    get_geometry_data quad USDMeshData_empty = Some d /\
    Z.of_nat (length (points d)) = 4 /\
    face_vertex_counts d = [4] /\ face_indices d = [0; 1; 2; 3].
Proof.
  assert (Hvalid : mesh_valid quad) by by_evaluation.
  split; [exact Hvalid|].
  destruct (geometry_buffers quad Hvalid)
    as (d & Hd & _ & Hlen & _ & Hcounts & Hidx).
  exists d. repeat split; [exact Hd | exact Hlen | exact Hcounts | exact Hidx].
Defined.

(** C3: on a well-formed mesh the buffers [get_geometry_data] returns
    satisfy sum(face_vertex_counts) = len(face_indices),
    len(crease_lengths) = len(crease_sharpnesses) and
    sum(crease_lengths) = len(crease_vertex_indices). *)
Theorem geometry_invariants (mesh : Mesh.t) :
  mesh_valid mesh ->
  exists d : USDMeshData,
    get_geometry_data mesh USDMeshData_empty = Some d /\
    sum_list (face_vertex_counts d) = Z.of_nat (length (face_indices d)) /\
    length (crease_lengths d) = length (crease_sharpnesses d) /\
    sum_list (crease_lengths d) = Z.of_nat (length (crease_vertex_indices d)).
Proof.
  intros Hvalid. exists (spec_geometry_data mesh).
  split; [by apply get_geometry_data_spec|].
  destruct Hvalid as (_ & _ & _ & _ & Hloop & Hpolys & _).
  simpl. split; [by apply face_counts_sum|].
  apply crease_runs_parallel.
Qed.

Lemma geometry_invariants_witness :
  mesh_valid quad /\
  exists d : USDMeshData,
    get_geometry_data quad USDMeshData_empty = Some d /\
    sum_list (face_vertex_counts d) = Z.of_nat (length (face_indices d)) /\
    length (crease_lengths d) = length (crease_sharpnesses d) /\
    sum_list (crease_lengths d) = Z.of_nat (length (crease_vertex_indices d)).
Proof.
  assert (Hvalid : mesh_valid quad) by by_evaluation.
  split; [exact Hvalid | exact (geometry_invariants quad Hvalid)].
Defined.

(** C4: on a well-formed mesh the three crease arrays are what the edges
    contribute one after the other in edge order, where an edge of weight 0
    contributes nothing, any other edge contributes one run of its own (its
    two vertex indices, the length 2 and one sharpness), the sharpness of
    weight 255 is [SHARPNESS_INFINITE], and the sharpness of a weight [w]
    strictly between 0 and 255 is within a relative error of 2^-23 of
    [w / 255]. *)
Theorem crease_extraction (mesh : Mesh.t) :
  mesh_valid mesh ->
  exists (d : USDMeshData) (run : MEdge.t -> list Z * list Z * list float32),
    get_geometry_data mesh USDMeshData_empty = Some d /\
    crease_vertex_indices d = Mesh.medge mesh ≫= (fun e => (run e).1.1) /\
    crease_lengths d = Mesh.medge mesh ≫= (fun e => (run e).1.2) /\
    crease_sharpnesses d = Mesh.medge mesh ≫= (fun e => (run e).2) /\
    forall e : MEdge.t,
      e ∈ Mesh.medge mesh ->
      (MEdge.crease e = 0 -> run e = ([], [], [])) /\
      (MEdge.crease e = 255 ->
         run e = ([MEdge.v1 e; MEdge.v2 e], [2], [SHARPNESS_INFINITE])) /\
      (0 < MEdge.crease e < 255 ->
         exists s : float32,
           run e = ([MEdge.v1 e; MEdge.v2 e], [2], [s]) /\
           (Qabs (Q_of_float32 s - (MEdge.crease e # 255))
              <= (MEdge.crease e # 255) * (1 # 8388608))%Q).
Proof.
  intros Hvalid.
  exists (spec_geometry_data mesh),
    (fun e => (crease_run_indices e, crease_run_length e, crease_run_sharpness e)).
  split; [by apply get_geometry_data_spec|].
  simpl. repeat split.
  - intros Hzero.
    unfold crease_run_indices, crease_run_length, crease_run_sharpness.
    by rewrite Hzero.
  - intros Hfull.
    unfold crease_run_indices, crease_run_length, crease_run_sharpness.
    by rewrite Hfull.
  - intros Hmid. exists (crease_sharpness (MEdge.crease e)).
    split; [|by apply sharpness_tolerance].
    unfold crease_run_indices, crease_run_length, crease_run_sharpness.
    destruct (Z.eqb_spec (MEdge.crease e) 0); [lia | done].
Qed.

Lemma crease_extraction_witness :
  mesh_valid quad /\
  exists (d : USDMeshData) (run : MEdge.t -> list Z * list Z * list float32),
    get_geometry_data quad USDMeshData_empty = Some d /\
    crease_vertex_indices d = Mesh.medge quad ≫= (fun e => (run e).1.1) /\
    crease_lengths d = Mesh.medge quad ≫= (fun e => (run e).1.2) /\
    crease_sharpnesses d = Mesh.medge quad ≫= (fun e => (run e).2) /\
    forall e : MEdge.t,
      e ∈ Mesh.medge quad ->
      (MEdge.crease e = 0 -> run e = ([], [], [])) /\
      (MEdge.crease e = 255 ->
         run e = ([MEdge.v1 e; MEdge.v2 e], [2], [SHARPNESS_INFINITE])) /\
      (0 < MEdge.crease e < 255 ->
         exists s : float32,
           run e = ([MEdge.v1 e; MEdge.v2 e], [2], [s]) /\
           (Qabs (Q_of_float32 s - (MEdge.crease e # 255))
              <= (MEdge.crease e # 255) * (1 # 8388608))%Q).
Proof.
  assert (Hvalid : mesh_valid quad) by by_evaluation.
  split; [exact Hvalid | exact (crease_extraction quad Hvalid)].
Defined.

(** C5: on a well-formed mesh with more than one material slot,
    [face_groups] has a list at slot [k] exactly when some polygon is of
    slot [k], and that list is the indices, counted from 0 and in polygon
    order, of the polygons of slot [k]: it is strictly increasing, an index
    is in it exactly when it is the index of a polygon whose [mat_nr] is
    [k], and every polygon's index is in the list at its own slot.  With one
    slot or none [face_groups] is empty whatever the polygons are.  So on a
    mesh that has a polygon, [face_groups] is non-empty exactly when there
    is more than one slot. *)
Theorem face_groups_population (mesh : Mesh.t) :
  mesh_valid mesh ->
  exists d : USDMeshData,
    get_geometry_data mesh USDMeshData_empty = Some d /\
    (1 < Mesh.totcol mesh ->
       (forall (k : Z) (l : list Z),
          face_groups d !! k = Some l <->
          l = polys_in_slot_from (Mesh.mpoly mesh) 0 k /\ l <> []) /\
       (forall (k : Z) (l : list Z),
          face_groups d !! k = Some l ->
          StronglySorted Z.lt l /\
          forall x : Z,
            x ∈ l <->
            0 <= x /\
            exists p : MPoly.t,
              Mesh.mpoly mesh !! Z.to_nat x = Some p /\ MPoly.mat_nr p = k) /\
       (forall (i : nat) (p : MPoly.t),
          Mesh.mpoly mesh !! i = Some p ->
          exists l : list Z,
            face_groups d !! MPoly.mat_nr p = Some l /\ Z.of_nat i ∈ l)) /\
    (Mesh.totcol mesh <= 1 -> face_groups d = ∅) /\
    (0 < Mesh.totpoly mesh -> (face_groups d <> ∅ <-> 1 < Mesh.totcol mesh)).
Proof.
  intros Hvalid. exists (spec_geometry_data mesh).
  split; [by apply get_geometry_data_spec|].
  destruct Hvalid as (_ & _ & _ & Hpoly & _).
  simpl. destruct (Z.ltb_spec 1 (Mesh.totcol mesh)) as [Hcol|Hcol].
  - split; [|split; [lia|]].
    + intros _. split; [|split].
      * intros k l. apply group_faces_lookup_Some.
      * intros k l [-> _]%group_faces_lookup_Some.
        split; [apply polys_in_slot_from_sorted|].
        intros x. rewrite elem_of_polys_in_slot_from. split.
        -- intros (j & p & Hp & -> & Hk). split; [lia|]. exists p.
           split; [|done]. by replace (Z.to_nat (0 + Z.of_nat j)) with j by lia.
        -- intros (Hx & p & Hp & Hk). exists (Z.to_nat x), p.
           split; [done|]. split; [lia | done].
      * intros i p Hi.
        exists (polys_in_slot_from (Mesh.mpoly mesh) 0 (MPoly.mat_nr p)).
        assert (Hin : Z.of_nat i
                      ∈ polys_in_slot_from (Mesh.mpoly mesh) 0 (MPoly.mat_nr p)).
        { apply elem_of_polys_in_slot_from. exists i, p.
          split; [done | split; [lia | done]]. }
        split; [|done].
        apply group_faces_lookup_Some. split; [done|].
        intros Hnil. rewrite Hnil in Hin. by apply elem_of_nil in Hin.
    + intros Hsome. split; [done|]. intros _ Hempty.
      destruct (Mesh.mpoly mesh) as [|p ps]; [simpl in Hpoly; lia|].
      assert (Hlook : group_faces_from (p :: ps) 0 ∅ !! MPoly.mat_nr p = None)
        by (by rewrite Hempty).
      rewrite group_faces_from_lookup in Hlook. simpl in Hlook.
      rewrite decide_True in Hlook by done. discriminate.
  - split; [lia|]. split; [done|].
    intros _. split; [done | lia].
Qed.

Lemma face_groups_population_witness :
  mesh_valid strip /\
  exists d : USDMeshData,
    get_geometry_data strip USDMeshData_empty = Some d /\
    face_groups d !! 0 = Some [1] /\
    face_groups d !! 1 = None /\
    face_groups d !! 2 = Some [0; 2] /\
    face_groups d <> ∅.
Proof.
  assert (Hvalid : mesh_valid strip) by by_evaluation.
  split; [exact Hvalid|].
  destruct (face_groups_population strip Hvalid)
    as (d & Hd & Hmany & _ & Hsome).
  assert (Hcol : 1 < Mesh.totcol strip) by (simpl; lia).
  destruct (Hmany Hcol) as (Hlookup & _ & _).
  exists d. split; [exact Hd|].
  split; [|split; [|split]].
  - apply Hlookup. split; [vm_compute; reflexivity | discriminate].
  - destruct (face_groups d !! 1) as [l|] eqn:Hl; [|reflexivity].
    apply Hlookup in Hl as [-> Hne]. exfalso. apply Hne. reflexivity.
  - apply Hlookup. split; [vm_compute; reflexivity | discriminate].
  - apply Hsome; [simpl; lia | exact Hcol].
Defined.

(** C10: on a well-formed mesh with more than one material slot the face
    groups partition the polygon indices: every polygon's index is in the
    list keyed by that polygon's material slot; an index found in a group is
    the index of a polygon of that group's slot, so it is in no other group;
    and each list is strictly increasing, so it holds no index twice. *)
Theorem face_groups_partition (mesh : Mesh.t) :
  mesh_valid mesh ->
  1 < Mesh.totcol mesh ->
  exists d : USDMeshData,
    get_geometry_data mesh USDMeshData_empty = Some d /\
    (forall (i : nat) (p : MPoly.t),
       Mesh.mpoly mesh !! i = Some p ->
       exists l : list Z,
         face_groups d !! MPoly.mat_nr p = Some l /\ Z.of_nat i ∈ l) /\
    (forall (k : Z) (l : list Z) (x : Z),
       face_groups d !! k = Some l -> x ∈ l ->
       0 <= x < Mesh.totpoly mesh /\
       exists p : MPoly.t,
         Mesh.mpoly mesh !! Z.to_nat x = Some p /\ MPoly.mat_nr p = k) /\
    (forall (k1 k2 : Z) (l1 l2 : list Z) (x : Z),
       face_groups d !! k1 = Some l1 -> face_groups d !! k2 = Some l2 ->
       x ∈ l1 -> x ∈ l2 -> k1 = k2) /\
    (forall (k : Z) (l : list Z),
       face_groups d !! k = Some l -> StronglySorted Z.lt l) /\
    (forall (k : Z) (l : list Z),
       face_groups d !! k = Some l -> NoDup l).
Proof.
  intros Hvalid Hcol. exists (spec_geometry_data mesh).
  split; [by apply get_geometry_data_spec|].
  destruct Hvalid as (_ & _ & _ & Hpoly & _).
  simpl. destruct (Z.ltb_spec 1 (Mesh.totcol mesh)); [|lia].
  assert (Hmember : forall k l x,
    group_faces_from (Mesh.mpoly mesh) 0 ∅ !! k = Some l -> x ∈ l ->
    0 <= x < Mesh.totpoly mesh /\
    exists p, Mesh.mpoly mesh !! Z.to_nat x = Some p /\ MPoly.mat_nr p = k).
  { intros k l x [-> _]%group_faces_lookup_Some
      (j & p & Hj & -> & Hk)%elem_of_polys_in_slot_from.
    pose proof (lookup_lt_Some _ _ _ Hj).
    split; [lia|]. exists p. split; [|done].
    by replace (Z.to_nat (0 + Z.of_nat j)) with j by lia. }
  split; [|split; [exact Hmember | split; [|split]]].
  - intros i p Hi.
    exists (polys_in_slot_from (Mesh.mpoly mesh) 0 (MPoly.mat_nr p)).
    assert (Hin : Z.of_nat i ∈ polys_in_slot_from (Mesh.mpoly mesh) 0 (MPoly.mat_nr p)).
    { apply elem_of_polys_in_slot_from. exists i, p.
      split; [done | split; [lia | done]]. }
    split; [|done].
    apply group_faces_lookup_Some. split; [done|].
    intros Hnil. rewrite Hnil in Hin. by apply elem_of_nil in Hin.
  - intros k1 k2 l1 l2 x H1 H2 Hx1 Hx2.
    destruct (Hmember _ _ _ H1 Hx1) as (_ & p1 & Hp1 & <-).
    destruct (Hmember _ _ _ H2 Hx2) as (_ & p2 & Hp2 & <-).
    congruence.
  - intros k l [-> _]%group_faces_lookup_Some.
    apply polys_in_slot_from_sorted.
  - intros k l [-> _]%group_faces_lookup_Some.
    pose proof (polys_in_slot_from_sorted (Mesh.mpoly mesh) 0 k) as Hs.
    induction Hs as [|x xs Hs IH Hall]; constructor; [|done].
    intros Hx. rewrite Forall_forall in Hall. specialize (Hall _ Hx). lia.
Qed.

Lemma face_groups_partition_witness :
  mesh_valid strip /\ 1 < Mesh.totcol strip /\
  exists d : USDMeshData,
    get_geometry_data strip USDMeshData_empty = Some d /\
    face_groups d !! 0 = Some [1] /\
    face_groups d !! 1 = None /\
    face_groups d !! 2 = Some [0; 2].
Proof.
  assert (Hvalid : mesh_valid strip) by by_evaluation.
  assert (Hcol : 1 < Mesh.totcol strip) by (simpl; lia).
  split; [exact Hvalid|]. split; [exact Hcol|].
  destruct (face_groups_partition strip Hvalid Hcol) as (d & Hd & _).
  exists d. split; [exact Hd|].
  assert (Hrun : get_geometry_data strip USDMeshData_empty
                 = Some (spec_geometry_data strip)) by (vm_compute; reflexivity).
  rewrite Hd in Hrun. injection Hrun as ->.
  repeat split.
Defined.

(** ** The order a [std::map] is visited in *)

Lemma key_le_trans : Transitive key_le.
Proof. intros a b c. unfold key_le. lia. Qed.

Lemma key_le_total : Total key_le.
Proof. intros a b. unfold key_le. lia. Qed.

Lemma sorted_keys_strict (l : list (Z * list Z)) :
  StronglySorted key_le l -> NoDup l.*1 ->
  StronglySorted (fun a b => a.1 < b.1) l.
Proof.
  induction 1 as [|a l Hsorted IH Hall]; intros Hnodup; [constructor|].
  rewrite fmap_cons in Hnodup. apply NoDup_cons in Hnodup as [Hfresh Hnodup].
  constructor; [by apply IH|].
  rewrite Forall_forall in Hall |- *. intros b Hb.
  specialize (Hall b Hb). unfold key_le in Hall.
  assert (a.1 <> b.1).
  { intros Heq. apply Hfresh. rewrite Heq.
    apply list_elem_of_fmap. by exists b. }
  lia.
Qed.

(** The entries are visited once each, in strictly ascending key order. *)
Lemma map_in_key_order_spec (m : gmap Z (list Z)) :
  StronglySorted (fun a b => a.1 < b.1) (map_in_key_order m) /\
  forall (k : Z) (l : list Z), (k, l) ∈ map_in_key_order m <-> m !! k = Some l.
Proof.
  unfold map_in_key_order.
  pose proof (merge_sort_Permutation key_le (map_to_list m)) as Hperm.
  split.
  - apply sorted_keys_strict.
    + apply (@StronglySorted_merge_sort _ key_le _ key_le_trans key_le_total).
    + rewrite Hperm. apply NoDup_fst_map_to_list.
  - intros k l. rewrite Hperm. apply elem_of_map_to_list.
Qed.

(** ** Scripts *)

Section WriterProperties.

Context {env : Collaborators} {writer_class : USDGenericMeshWriter}.

Lemma run_calls_app (s1 s2 : list Event) :
  forall h : list Event,
    run_calls (s1 ++ s2) h =
      (let '(l1, o) := run_calls s1 h in
       match o with
       | Returned _ =>
           let '(l2, o2) := run_calls s2 (h ++ l1) in (l1 ++ l2, o2)
       | _ => (l1, o)
       end).
Proof.
  induction s1 as [|ev s1 IH]; intros h; simpl.
  - rewrite app_nil_r. by destruct (run_calls s2 h).
  - destruct (throws h ev); [reflexivity|].
    rewrite IH. destruct (run_calls s1 (h ++ [ev])) as [l1 [[]| | |]]; try reflexivity.
    rewrite <- app_assoc. simpl.
    by destruct (run_calls s2 (h ++ ev :: l1)).
Qed.

Lemma run_calls_returned (s : list Event) :
  forall (h l : list Event) (u : unit),
    run_calls s h = (l, Returned u) -> l = s.
Proof.
  induction s as [|ev s IH]; intros h l u; simpl.
  - by intros [= <-].
  - destruct (throws h ev); [discriminate|].
    destruct (run_calls s (h ++ [ev])) as [l' o] eqn:Hrun.
    intros [= <- ->]. f_equal. by eapply IH.
Qed.

Lemma run_calls_prefix (s : list Event) :
  forall h : list Event, (run_calls s h).1 `prefix_of` s.
Proof.
  induction s as [|ev s IH]; intros h; simpl; [done|].
  destruct (throws h ev).
  - by exists s.
  - specialize (IH (h ++ [ev])).
    destruct (run_calls s (h ++ [ev])) as [l o]. simpl in *.
    by apply prefix_cons.
Qed.

(** A script ends by returning or by throwing. *)
Lemma run_calls_ends (s : list Event) :
  forall h : list Event,
    (run_calls s h).2 = Returned tt \/ exists e : exn, (run_calls s h).2 = Threw e.
Proof.
  induction s as [|ev s IH]; intros h; simpl; [by left|].
  destruct (throws h ev) as [e|]; [right; by exists e|].
  specialize (IH (h ++ [ev])).
  by destruct (run_calls s (h ++ [ev])).
Qed.

Lemma scripted_ret {A : Type} (a : A) : scripted (mret a) [] a.
Proof. by intros h. Qed.

Lemma scripted_call (ev : Event) : scripted (call ev) [ev] tt.
Proof. intros h. unfold call. simpl. by destruct (throws h ev). Qed.

Lemma scripted_bind {A B : Type} (m : M A) (f : A -> M B)
    (s1 s2 : list Event) (a : A) (b : B) :
  scripted m s1 a -> scripted (f a) s2 b -> scripted (m ≫= f) (s1 ++ s2) b.
Proof.
  intros Hm Hf h. unfold mbind, M_bind, bind.
  rewrite (Hm h), run_calls_app.
  destruct (run_calls s1 h) as [l1 [[]| | |]]; try reflexivity.
  simpl. rewrite (Hf (h ++ l1)).
  by destruct (run_calls s2 (h ++ l1)).
Qed.

Lemma scripted_ext {A : Type} (m : M A) (s s' : list Event) (a : A) :
  scripted m s a -> s = s' -> scripted m s' a.
Proof. by intros H <-. Qed.

Lemma scripted_returned {A : Type} (m : M A) (s : list Event) (a : A)
    (h l : list Event) (a' : A) :
  scripted m s a -> m h = (l, Returned a') -> l = s /\ a' = a.
Proof.
  intros Hm. rewrite (Hm h).
  destruct (run_calls s h) as [l' [u| | |]] eqn:Hrun; try discriminate.
  intros [= <- <-]. split; [|done]. by eapply run_calls_returned.
Qed.

Lemma scripted_prefix {A : Type} (m : M A) (s : list Event) (a : A)
    (h : list Event) :
  scripted m s a -> (m h).1 `prefix_of` s.
Proof.
  intros Hm. rewrite (Hm h).
  pose proof (run_calls_prefix s h) as Hp.
  by destruct (run_calls s h).
Qed.

Lemma scripted_ends {A : Type} (m : M A) (s : list Event) (a : A)
    (h : list Event) :
  scripted m s a ->
  (m h).2 = Returned a \/ exists e : exn, (m h).2 = Threw e.
Proof.
  intros Hm. rewrite (Hm h).
  destruct (run_calls_ends s h) as [Hr | [e He]];
    destruct (run_calls s h) as [l o]; simpl in *; subst o.
  - by left.
  - right. by exists e.
Qed.

(** One step of reading a function as its script. *)
Ltac scripted_step :=
  first [ apply scripted_ret | apply scripted_call | eapply scripted_bind ].

Lemma ensure_usd_material_scripted (material : Material.t) :
  scripted (ensure_usd_material material) [EvEnsureUsdMaterial material]
    (usd_material_of material).
Proof.
  unfold ensure_usd_material.
  eapply scripted_ext; [repeat scripted_step | reflexivity].
Qed.

(** With a slot count that fits a [short] the counter never wraps around,
    and the loop ends before the fuel does.  Blender keeps the slots of an
    object at MAXMAT at most, which is below [SHRT_MAX]. *)
Lemma bind_first_material_scripted (context : HierarchyContext)
    (usd_mesh : SdfPath) (fuel : nat) :
  Object.totcol (object context) <= SHRT_MAX ->
  forall mat_num : Z,
    0 <= mat_num ->
    (Z.to_nat (Object.totcol (object context) - mat_num) < fuel)%nat ->
    let n := Z.to_nat (Object.totcol (object context) - mat_num) in
    scripted (bind_first_material context usd_mesh fuel mat_num)
      (match first_material context n mat_num with
       | Some material => bind_script usd_mesh material
       | None => []
       end)
      (match first_material context n mat_num with
       | Some _ => true
       | None => false
       end).
Proof.
  intros Hshort. unfold SHRT_MAX in Hshort.
  induction fuel as [|fuel IH]; intros mat_num Hpos Hfuel; [lia|].
  cbv zeta. simpl bind_first_material.
  destruct (Z.ltb_spec mat_num (Object.totcol (object context))) as [Hlt|Hge].
  - replace (Z.to_nat (Object.totcol (object context) - mat_num))
      with (S (Z.to_nat (Object.totcol (object context) - (mat_num + 1))))
      in * by lia.
    simpl first_material.
    destruct (give_current_material (object context) (short_of_int (mat_num + 1)))
      as [material|].
    + eapply scripted_ext.
      * eapply scripted_bind; [apply ensure_usd_material_scripted|].
        repeat scripted_step.
      * reflexivity.
    + rewrite short_of_int_small by (unfold SHRT_MAX; lia).
      apply IH; lia.
  - replace (Z.to_nat (Object.totcol (object context) - mat_num)) with O by lia.
    apply scripted_ret.
Qed.

Lemma define_subsets_scripted (context : HierarchyContext) (usd_mesh : SdfPath)
    (groups : list (Z * list Z)) :
  scripted (define_subsets context usd_mesh groups)
    (groups ≫= subset_script context usd_mesh) tt.
Proof.
  induction groups as [|[material_number face_indices] rest IH]; simpl.
  - apply scripted_ret.
  - unfold subset_script at 1, group_material. simpl.
    destruct (give_current_material (object context)
                (short_of_int (material_number + 1))) as [material|];
      [|apply IH].
    eapply scripted_ext.
    + eapply scripted_bind; [apply ensure_usd_material_scripted|].
      eapply scripted_bind; [apply scripted_call|].
      eapply scripted_bind; [apply scripted_call|].
      apply IH.
    + reflexivity.
Qed.

Lemma assign_materials_scripted (context : HierarchyContext)
    (usd_mesh : SdfPath) (usd_face_groups : gmap Z (list Z)) :
  Object.totcol (object context) <= SHRT_MAX ->
  scripted (assign_materials context usd_mesh usd_face_groups)
    (assign_materials_script context usd_mesh usd_face_groups) tt.
Proof.
  intros Hshort.
  unfold assign_materials, assign_materials_script, bound_material.
  destruct (Object.totcol (object context) =? 0); [apply scripted_ret|].
  pose proof (bind_first_material_scripted context usd_mesh (S SHORT_VALUES)
                Hshort 0) as Hfirst.
  cbv zeta in Hfirst. rewrite Z.sub_0_r in Hfirst.
  specialize (Hfirst ltac:(lia)
                ltac:(unfold SHRT_MAX in Hshort; unfold SHORT_VALUES; lia)).
  destruct (first_material context _ 0) as [material|].
  - destruct (size usd_face_groups <? 2)%nat.
    + eapply scripted_ext.
      * eapply scripted_bind; [apply Hfirst|]. simpl.
        eapply scripted_bind; apply scripted_ret.
      * reflexivity.
    + eapply scripted_ext.
      * eapply scripted_bind; [apply Hfirst|]. simpl.
        eapply scripted_bind; [apply scripted_ret|].
        apply define_subsets_scripted.
      * reflexivity.
  - eapply scripted_ext.
    + eapply scripted_bind; [apply Hfirst|]. simpl.
      eapply scripted_bind; [apply scripted_call|].
      apply scripted_ret.
    + reflexivity.
Qed.

Lemma write_mesh_scripted (w : USDAbstractWriter) (context : HierarchyContext)
    (mesh : Mesh.t) (d : USDMeshData) :
  get_geometry_data mesh USDMeshData_empty = Some d ->
  frame_has_been_written_ w = true \/ Object.totcol (object context) <= SHRT_MAX ->
  scripted (write_mesh w context mesh) (write_mesh_script w context d) tt.
Proof.
  intros Hd Hloop. unfold write_mesh, write_mesh_script, geometry_script.
  rewrite Hd. simpl of_option.
  assert (Htail : scripted
            (if frame_has_been_written_ w then mret tt
             else assign_materials context (usd_path_ w) (face_groups d))
            (if frame_has_been_written_ w then []
             else assign_materials_script context (usd_path_ w) (face_groups d))
            tt).
  { destruct (frame_has_been_written_ w); [apply scripted_ret|].
    apply assign_materials_scripted. by destruct Hloop. }
  assert (Hcrease : scripted
            (match crease_lengths d with
             | [] => mret tt
             | _ :: _ =>
                 call (EvSetCreaseLengths (usd_path_ w) (crease_lengths d)
                         (get_export_time_code w)) ;;
                 call (EvSetCreaseIndices (usd_path_ w) (crease_vertex_indices d)
                         (get_export_time_code w)) ;;
                 call (EvSetCreaseSharpnesses (usd_path_ w) (crease_sharpnesses d)
                         (get_export_time_code w))
             end)
            (match crease_lengths d with
             | [] => []
             | _ :: _ =>
                 [EvSetCreaseLengths (usd_path_ w) (crease_lengths d)
                    (get_export_time_code w);
                  EvSetCreaseIndices (usd_path_ w) (crease_vertex_indices d)
                    (get_export_time_code w);
                  EvSetCreaseSharpnesses (usd_path_ w) (crease_sharpnesses d)
                    (get_export_time_code w)]
             end)
            tt).
  { destruct (crease_lengths d); [apply scripted_ret|].
    eapply scripted_ext; [repeat scripted_step | reflexivity]. }
  eapply scripted_ext.
  - eapply scripted_bind; [apply scripted_call|].
    eapply scripted_bind; [apply scripted_ret|].
    eapply scripted_bind; [apply scripted_call|].
    eapply scripted_bind; [apply scripted_call|].
    eapply scripted_bind; [apply scripted_call|].
    eapply scripted_bind; [apply Hcrease | apply Htail].
  - reflexivity.
Qed.

(** ** What the scripts hold *)

Lemma first_material_at (context : HierarchyContext) (n : nat) :
  forall (mat_num k : Z) (material : Material.t),
    mat_num <= k < mat_num + Z.of_nat n ->
    give_current_material (object context) (short_of_int (k + 1)) = Some material ->
    (forall j : Z, mat_num <= j < k ->
       give_current_material (object context) (short_of_int (j + 1)) = None) ->
    first_material context n mat_num = Some material.
Proof.
  induction n as [|n IH]; intros mat_num k material Hk Hfound Hbefore; [lia|].
  simpl. destruct (decide (k = mat_num)) as [->|Hne].
  - by rewrite Hfound.
  - rewrite (Hbefore mat_num) by lia.
    apply (IH (mat_num + 1) k); [lia | done |].
    intros j Hj. apply Hbefore. lia.
Qed.

Lemma first_material_none (context : HierarchyContext) (n : nat) :
  forall mat_num : Z,
    (forall j : Z, mat_num <= j < mat_num + Z.of_nat n ->
       give_current_material (object context) (short_of_int (j + 1)) = None) ->
    first_material context n mat_num = None.
Proof.
  induction n as [|n IH]; intros mat_num Hnone; [reflexivity|].
  simpl. rewrite (Hnone mat_num) by lia.
  apply IH. intros j Hj. apply Hnone. lia.
Qed.

(** The script of the face groups: no call on the whole mesh, one subset
    and one subset binding for each group whose slot holds a material. *)
Lemma subset_scripts_calls (context : HierarchyContext) (usd_mesh : SdfPath)
    (groups : list (Z * list Z)) :
  let script := groups ≫= subset_script context usd_mesh in
  mesh_bindings script = [] /\
  double_sided_writes script = [] /\
  freed_meshes script = [] /\
  subsets_created script =
    omap (fun group =>
            material ← group_material context group;
            Some (material_name_token (usd_material_of material), group.2))
         groups /\
  subset_bindings script =
    omap (fun group =>
            material ← group_material context group;
            Some (material_name_token (usd_material_of material),
                  usd_material_of material))
         groups.
Proof.
  cbv zeta.
  induction groups as [|group groups (IH1 & IH2 & IH3 & IH4 & IH5)]; [done|].
  unfold mesh_bindings, double_sided_writes, freed_meshes, subsets_created,
    subset_bindings in *.
  rewrite !bind_cons, !omap_app, IH1, IH2, IH3, IH4, IH5.
  unfold subset_script. simpl.
  by destruct (group_material context group).
Qed.

(** When no call throws, a scripted computation makes every call of its
    script and returns. *)
Lemma run_calls_quiet (s : list Event) :
  quiet -> forall h : list Event, run_calls s h = (s, Returned tt).
Proof.
  intros Hquiet. induction s as [|ev s IH]; intros h; simpl; [reflexivity|].
  by rewrite Hquiet, IH.
Qed.

Lemma scripted_quiet {A : Type} (m : M A) (s : list Event) (a : A)
    (h : list Event) :
  quiet -> scripted m s a -> m h = (s, Returned a).
Proof. intros Hquiet Hm. by rewrite (Hm h), run_calls_quiet. Qed.

(** ** Which calls a function can make *)

Lemma emits_ret {A : Type} (P : Event -> Prop) (a : A) : emits P (mret a).
Proof. intros h. constructor. Qed.

Lemma emits_undefined {A : Type} (P : Event -> Prop) : emits P (@undefined A).
Proof. intros h. constructor. Qed.

Lemma emits_diverge {A : Type} (P : Event -> Prop) : emits P (@diverge A).
Proof. intros h. constructor. Qed.

Lemma emits_call (P : Event -> Prop) (ev : Event) : P ev -> emits P (call ev).
Proof. intros HP h. unfold call. simpl. by repeat constructor. Qed.

Lemma emits_bind {A B : Type} (P : Event -> Prop) (m : M A) (f : A -> M B) :
  emits P m -> (forall a : A, emits P (f a)) -> emits P (m ≫= f).
Proof.
  intros Hm Hf h. unfold mbind, M_bind, bind.
  specialize (Hm h). destruct (m h) as [l1 [a| | |]]; simpl in *; try done.
  specialize (Hf a (h ++ l1)). destruct (f a (h ++ l1)) as [l2 o2].
  simpl in *. by apply Forall_app.
Qed.

Lemma emits_mono {A : Type} (P Q : Event -> Prop) (m : M A) :
  (forall ev : Event, P ev -> Q ev) -> emits P m -> emits Q m.
Proof. intros HPQ Hm h. eapply Forall_impl; [apply Hm | apply HPQ]. Qed.

(** One step of listing the calls of a function. *)
Ltac emits_step :=
  first [ apply emits_ret
        | apply emits_call; done
        | apply emits_bind; [|intros ?] ].

Lemma bind_first_material_emits (context : HierarchyContext)
    (usd_mesh : SdfPath) (fuel : nat) :
  forall mat_num : Z,
    emits (fun ev => is_material_event ev = true)
      (bind_first_material context usd_mesh fuel mat_num).
Proof.
  induction fuel as [|fuel IH]; intros mat_num; simpl; [apply emits_diverge|].
  destruct (mat_num <? Object.totcol (object context)); [|apply emits_ret].
  destruct (give_current_material (object context) (short_of_int (mat_num + 1)));
    [|apply IH].
  unfold ensure_usd_material. repeat emits_step.
Qed.

Lemma define_subsets_emits (context : HierarchyContext) (usd_mesh : SdfPath)
    (groups : list (Z * list Z)) :
  emits (fun ev => is_material_event ev = true)
    (define_subsets context usd_mesh groups).
Proof.
  induction groups as [|[material_number face_indices] rest IH]; simpl.
  - apply emits_ret.
  - destruct (give_current_material (object context)
                (short_of_int (material_number + 1))); [|apply IH].
    unfold ensure_usd_material.
    apply emits_bind; [repeat emits_step|]. intros usd_material.
    apply emits_bind; [apply emits_call; done|]. intros _.
    apply emits_bind; [apply emits_call; done|]. intros _.
    apply IH.
Qed.

(** [assign_materials] makes calls of material assignment only, and none for
    an object without slots. *)
Lemma assign_materials_emits (context : HierarchyContext) (usd_mesh : SdfPath)
    (usd_face_groups : gmap Z (list Z)) :
  emits (fun ev => is_material_event ev = true /\
                   Object.totcol (object context) <> 0)
    (assign_materials context usd_mesh usd_face_groups).
Proof.
  unfold assign_materials.
  destruct (Z.eqb_spec (Object.totcol (object context)) 0) as [Hzero|Hslots];
    [apply emits_ret|].
  apply (emits_mono (fun ev => is_material_event ev = true)); [done|].
  apply emits_bind; [apply bind_first_material_emits|].
  intros mesh_material_bound.
  apply emits_bind.
  - destruct (negb mesh_material_bound); repeat emits_step.
  - intros _. destruct (negb mesh_material_bound || _);
      [apply emits_ret | apply define_subsets_emits].
Qed.

(** [write_mesh] makes geometry calls, and calls of material assignment
    only on the first time sample of an object that has slots. *)
Lemma write_mesh_emits (w : USDAbstractWriter) (context : HierarchyContext)
    (mesh : Mesh.t) :
  emits (fun ev => is_geometry_event ev = true \/
                   (is_material_event ev = true /\
                    frame_has_been_written_ w = false /\
                    Object.totcol (object context) <> 0))
    (write_mesh w context mesh).
Proof.
  unfold write_mesh.
  apply emits_bind; [apply emits_call; by left|]. intros _.
  apply emits_bind.
  { destruct (get_geometry_data mesh USDMeshData_empty);
      [apply emits_ret | apply emits_undefined]. }
  intros d.
  apply emits_bind; [apply emits_call; by left|]. intros _.
  apply emits_bind; [apply emits_call; by left|]. intros _.
  apply emits_bind; [apply emits_call; by left|]. intros _.
  apply emits_bind.
  { destruct (crease_lengths d); [apply emits_ret|].
    apply emits_bind; [apply emits_call; by left|]. intros _.
    apply emits_bind; [apply emits_call; by left|]. intros _.
    apply emits_call; by left. }
  intros _.
  destruct (frame_has_been_written_ w) eqn:Hwritten; [apply emits_ret|].
  eapply emits_mono; [|apply assign_materials_emits].
  intros ev [Hmat Hslots]. by right.
Qed.

(** Calls that a selection answers [None] to leave nothing in it. *)
Lemma omap_nothing {B : Type} (P : Event -> Prop) (f : Event -> option B)
    (l : list Event) :
  Forall P l -> (forall ev : Event, P ev -> f ev = None) -> omap f l = [].
Proof.
  intros Hall Hnone. induction Hall as [|ev l Hev _ IH]; [reflexivity|].
  change (omap f (ev :: l))
    with (match f ev with Some y => y :: omap f l | None => omap f l end).
  by rewrite (Hnone ev Hev).
Qed.

Lemma write_mesh_frees_nothing (w : USDAbstractWriter)
    (context : HierarchyContext) (mesh : Mesh.t) (h : list Event) :
  freed_meshes (write_mesh w context mesh h).1 = [].
Proof.
  eapply omap_nothing; [apply write_mesh_emits|].
  intros ev [Hgeom | [Hmat _]]; by destruct ev.
Qed.

(** ** The orchestrator: the claims *)

(** What [do_write] does once the mesh is there: the calls of [write_mesh]
    and, when [write_mesh] has returned or thrown and the mesh is a
    temporary, one release. *)
Lemma do_write_run (w : USDAbstractWriter) (context : HierarchyContext)
    (mesh : Mesh.t) (needsfree : bool) (h wlog : list Event)
    (wo : outcome unit) :
  get_export_mesh (object context) false = (Some mesh, needsfree) ->
  write_mesh w context mesh h = (wlog, wo) ->
  do_write w context h =
    (match wo with
     | Returned _ | Threw _ =>
         wlog ++ (if needsfree then [EvBKE_id_free mesh] else [])
     | _ => wlog
     end, wo).
Proof.
  intros Hget Hwrite. unfold do_write. rewrite Hget.
  unfold try_catch, mbind, M_bind, bind. rewrite Hwrite.
  destruct wo as [[]|e| |], needsfree; reflexivity.
Qed.

(** C1: let [do_write] acquire a mesh.  On a well-formed mesh of an object
    whose slot count fits a [short], [write_mesh] returns or throws.
    Whenever it returns or throws, [do_write] ends the same way (it returns,
    or the same exception leaves it), and its calls are those of
    [write_mesh] followed, if the mesh is flagged as temporary, by one call
    of [free_export_mesh] on that mesh and by nothing else: a temporary mesh
    is released exactly once on either path.  A mesh that is not flagged as
    temporary is never released. *)
Theorem temporary_mesh_released (w : USDAbstractWriter)
    (context : HierarchyContext) (mesh : Mesh.t) (needsfree : bool)
    (h wlog : list Event) (wo : outcome unit) :
  get_export_mesh (object context) false = (Some mesh, needsfree) ->
  write_mesh w context mesh h = (wlog, wo) ->
  (mesh_valid mesh -> Object.totcol (object context) <= SHRT_MAX ->
   wo = Returned tt \/ exists e : exn, wo = Threw e) /\
  (wo = Returned tt \/ (exists e : exn, wo = Threw e) ->
   do_write w context h =
     (wlog ++ (if needsfree then [EvBKE_id_free mesh] else []), wo) /\
   freed_meshes (do_write w context h).1 = (if needsfree then [mesh] else [])) /\
  (needsfree = false -> freed_meshes (do_write w context h).1 = []).
Proof.
  intros Hget Hwrite.
  pose proof (write_mesh_frees_nothing w context mesh h) as Hfree.
  rewrite (do_write_run w context mesh needsfree h wlog wo Hget Hwrite).
  rewrite Hwrite in Hfree. simpl in Hfree.
  split; [|split].
  - intros Hvalid Hshort.
    pose proof (scripted_ends _ _ _ h
                  (write_mesh_scripted w context mesh _
                     (get_geometry_data_spec mesh Hvalid) (or_intror Hshort)))
      as Hends.
    by rewrite Hwrite in Hends.
  - intros Hends.
    assert (Hlog : match wo with
                   | Returned _ | Threw _ =>
                       wlog ++ (if needsfree then [EvBKE_id_free mesh] else [])
                   | _ => wlog
                   end
                   = wlog ++ (if needsfree then [EvBKE_id_free mesh] else [])).
    { by destruct Hends as [-> | [e ->]]. }
    rewrite Hlog. split; [reflexivity|].
    simpl. unfold freed_meshes in *. rewrite omap_app, Hfree.
    by destruct needsfree.
  - intros ->. simpl. unfold freed_meshes in *.
    destruct wo; rewrite ?omap_app, ?Hfree; reflexivity.
Qed.

(** ** Material assignment: the claims *)

(** C6: take an object whose slot count fits a [short].  [assign_materials]
    returns when no call throws.  When it returns: with zero slots it has
    made no call at all.  With at least one slot, if slot [k] is the first
    from index 0 that holds a material, its first calls resolve that
    material, bind it to the mesh prim itself and create the double-sided
    attribute with the value "the culling bit of the material is clear";
    this is the only binding to the mesh and the only double-sided write.
    If every slot is empty, the one call made creates the double-sided
    attribute with the value true. *)
Theorem whole_mesh_binding (context : HierarchyContext) (usd_mesh : SdfPath)
    (usd_face_groups : gmap Z (list Z)) (h log : list Event)
    (o : outcome unit) :
  Object.totcol (object context) <= SHRT_MAX ->
  assign_materials context usd_mesh usd_face_groups h = (log, o) ->
  (quiet -> o = Returned tt) /\
  (o = Returned tt ->
   (Object.totcol (object context) = 0 -> log = []) /\
   (forall (k : Z) (material : Material.t),
      0 <= k < Object.totcol (object context) ->
      give_current_material (object context) (k + 1) = Some material ->
      (forall j : Z, 0 <= j < k ->
         give_current_material (object context) (j + 1) = None) ->
      let double_sided :=
        Z.land (Material.blend_flag material) MA_BL_CULL_BACKFACE =? 0 in
      (exists rest : list Event,
         log = [EvEnsureUsdMaterial material;
                EvBind (usd_material_of material) (MeshPrim usd_mesh);
                EvCreateDoubleSidedAttr usd_mesh double_sided] ++ rest) /\
      mesh_bindings log = [usd_material_of material] /\
      double_sided_writes log = [double_sided]) /\
   (0 < Object.totcol (object context) ->
    (forall j : Z, 0 <= j < Object.totcol (object context) ->
       give_current_material (object context) (j + 1) = None) ->
    log = [EvCreateDoubleSidedAttr usd_mesh true])).
Proof.
  intros Hshort Hrun.
  pose proof (assign_materials_scripted context usd_mesh usd_face_groups Hshort)
    as Hscripted.
  split.
  { intros Hquiet.
    rewrite (scripted_quiet _ _ _ h Hquiet Hscripted) in Hrun.
    by injection Hrun as _ <-. }
  intros ->.
  destruct (scripted_returned _ _ _ _ _ _ Hscripted Hrun) as [-> _].
  unfold assign_materials_script, bound_material.
  split; [|split].
  - intros ->. reflexivity.
  - intros k material Hk Hfound Hbefore.
    destruct (Z.eqb_spec (Object.totcol (object context)) 0); [lia|].
    rewrite (first_material_at context _ 0 k material).
    + split; [by eexists|].
      destruct (subset_scripts_calls context usd_mesh
                  (map_in_key_order usd_face_groups)) as (Hb & Hd & _).
      unfold mesh_bindings, double_sided_writes in *.
      rewrite !omap_app. simpl.
      destruct (size usd_face_groups <? 2)%nat; [done|].
      by rewrite Hb, Hd.
    + lia.
    + rewrite short_of_int_small by lia. done.
    + intros j Hj. rewrite short_of_int_small by lia. apply Hbefore. lia.
  - intros Hpos Hnone.
    destruct (Z.eqb_spec (Object.totcol (object context)) 0); [lia|].
    rewrite first_material_none; [reflexivity|].
    intros j Hj. rewrite short_of_int_small by lia. apply Hnone. lia.
Qed.

(** C7: take an object whose slot count fits a [short].  The face groups
    are visited once each in strictly ascending slot order, and
    [assign_materials] returns when no call throws.  When it returns: if a
    material was bound to the whole mesh and there are at least two face
    groups, the subsets created are, in that order, one for each group whose
    slot holds a material, named after the material and holding the group's
    polygon indices, and each is bound to the material of its slot; a group
    whose slot holds no material gets none.  Otherwise no subset is created
    or bound. *)
Theorem geometry_subsets (context : HierarchyContext) (usd_mesh : SdfPath)
    (usd_face_groups : gmap Z (list Z)) (h log : list Event)
    (o : outcome unit) :
  Object.totcol (object context) <= SHRT_MAX ->
  assign_materials context usd_mesh usd_face_groups h = (log, o) ->
  let groups := map_in_key_order usd_face_groups in
  let slot_material (group : Z * list Z) :=
    give_current_material (object context) (short_of_int (group.1 + 1)) in
  (StronglySorted (fun a b => a.1 < b.1) groups /\
   forall (k : Z) (l : list Z),
     (k, l) ∈ groups <-> usd_face_groups !! k = Some l) /\
  (quiet -> o = Returned tt) /\
  (o = Returned tt ->
   (mesh_bindings log <> [] /\ (2 <= size usd_face_groups)%nat ->
    subsets_created log =
      omap (fun group =>
              material ← slot_material group;
              Some (material_name_token (usd_material_of material), group.2))
           groups /\
    subset_bindings log =
      omap (fun group =>
              material ← slot_material group;
              Some (material_name_token (usd_material_of material),
                    usd_material_of material))
           groups) /\
   (~ (mesh_bindings log <> [] /\ (2 <= size usd_face_groups)%nat) ->
    subsets_created log = [] /\ subset_bindings log = [])).
Proof.
  intros Hshort Hrun groups slot_material. subst groups slot_material.
  pose proof (assign_materials_scripted context usd_mesh usd_face_groups Hshort)
    as Hscripted.
  split; [apply map_in_key_order_spec|].
  split.
  { intros Hquiet.
    rewrite (scripted_quiet _ _ _ h Hquiet Hscripted) in Hrun.
    by injection Hrun as _ <-. }
  intros ->.
  destruct (scripted_returned _ _ _ _ _ _ Hscripted Hrun) as [-> _].
  destruct (subset_scripts_calls context usd_mesh
              (map_in_key_order usd_face_groups)) as (Hb & _ & _ & Hc & Hsb).
  unfold assign_materials_script.
  destruct (Object.totcol (object context) =? 0).
  { split; [by intros [? _] | done]. }
  destruct (bound_material context) as [material|].
  2:{ split; [by intros [? _] | done]. }
  unfold mesh_bindings, subsets_created, subset_bindings in *.
  rewrite !omap_app. simpl.
  destruct (Nat.ltb_spec (size usd_face_groups) 2) as [Hfew|Hmany].
  - split; [intros [_ ?]; lia | done].
  - split; [intros _; by rewrite Hc, Hsb|].
    intros Hnot. exfalso. apply Hnot. split; [done | lia].
Qed.

(** ** Writing one time sample: the claims *)

(** A call of [write_mesh] that returns has read its mesh inside the
    arrays and has made every call of its script. *)
Lemma write_mesh_returned (w : USDAbstractWriter) (context : HierarchyContext)
    (mesh : Mesh.t) (h log : list Event) :
  frame_has_been_written_ w = true \/ Object.totcol (object context) <= SHRT_MAX ->
  write_mesh w context mesh h = (log, Returned tt) ->
  exists d : USDMeshData,
    get_geometry_data mesh USDMeshData_empty = Some d /\
    log = write_mesh_script w context d.
Proof.
  intros Hloop Hrun.
  destruct (get_geometry_data mesh USDMeshData_empty) as [d|] eqn:Hd.
  - exists d. split; [reflexivity|].
    by destruct (scripted_returned _ _ _ _ _ _
                   (write_mesh_scripted w context mesh d Hd Hloop) Hrun).
  - exfalso. revert Hrun. unfold write_mesh. rewrite Hd.
    unfold mbind, M_bind, bind, call, of_option, undefined.
    by destruct (throws h (EvDefine (usd_path_ w))).
Qed.

(** On a well-formed mesh [write_mesh] returns when no call throws. *)
Lemma write_mesh_quiet (w : USDAbstractWriter) (context : HierarchyContext)
    (mesh : Mesh.t) (h : list Event) :
  frame_has_been_written_ w = true \/ Object.totcol (object context) <= SHRT_MAX ->
  mesh_valid mesh -> quiet ->
  (write_mesh w context mesh h).2 = Returned tt.
Proof.
  intros Hloop Hvalid Hquiet.
  by rewrite (scripted_quiet _ _ _ h Hquiet
                (write_mesh_scripted w context mesh _
                   (get_geometry_data_spec mesh Hvalid) Hloop)).
Qed.

(** C8: let a time sample have been written before.  [write_mesh] makes no
    call of material assignment (no material is resolved or bound, no
    double-sided attribute and no subset is created), however it ends.  It
    returns, on a well-formed mesh, when no call throws; and when it
    returns, its calls are exactly the definition of the mesh prim followed
    by the points, the face vertex counts and the face vertex indices at the
    current time code, and by the three crease arrays when there is a
    crease. *)
Theorem frozen_after_first_sample (w : USDAbstractWriter)
    (context : HierarchyContext) (mesh : Mesh.t) (h log : list Event)
    (o : outcome unit) :
  frame_has_been_written_ w = true ->
  write_mesh w context mesh h = (log, o) ->
  (forall ev : Event, ev ∈ log -> is_material_event ev = false) /\
  (mesh_valid mesh -> quiet -> o = Returned tt) /\
  (o = Returned tt ->
   exists d : USDMeshData,
     get_geometry_data mesh USDMeshData_empty = Some d /\
     let timecode := get_export_time_code w in
     log =
       [EvDefine (usd_path_ w);
        EvSetPoints (usd_path_ w) (points d) timecode;
        EvSetFaceVertexCounts (usd_path_ w) (face_vertex_counts d) timecode;
        EvSetFaceVertexIndices (usd_path_ w) (face_indices d) timecode] ++
       match crease_lengths d with
       | [] => []
       | _ :: _ =>
           [EvSetCreaseLengths (usd_path_ w) (crease_lengths d) timecode;
            EvSetCreaseIndices (usd_path_ w) (crease_vertex_indices d) timecode;
            EvSetCreaseSharpnesses (usd_path_ w) (crease_sharpnesses d) timecode]
       end).
Proof.
  intros Hwritten Hrun. split; [|split].
  - intros ev Hev.
    pose proof (write_mesh_emits w context mesh h) as Hall.
    rewrite Hrun, Forall_forall in Hall. simpl in Hall.
    destruct (Hall ev Hev) as [Hgeom | (_ & Hfirst & _)]; [|congruence].
    by destruct ev.
  - intros Hvalid Hquiet.
    pose proof (write_mesh_quiet w context mesh h (or_introl Hwritten)
                  Hvalid Hquiet) as Hret.
    by rewrite Hrun in Hret.
  - intros ->.
    destruct (write_mesh_returned w context mesh h log (or_introl Hwritten) Hrun)
      as (d & Hd & ->).
    exists d. split; [exact Hd|].
    unfold write_mesh_script, geometry_script.
    by rewrite Hwritten, app_nil_r.
Qed.

(** C9, as the code has it: [write_mesh] does not create the double-sided
    attribute, however it ends, when a time sample has been written before
    or the object has no material slot.  For an object whose slot count fits
    a [short] it returns, on a well-formed mesh, when no call throws; and a
    call that returns when no time sample has been written before, on an
    object that has a material slot, has created the attribute exactly
    once. *)
Theorem double_sided_first_sample_only (w : USDAbstractWriter)
    (context : HierarchyContext) (mesh : Mesh.t) (h log : list Event)
    (o : outcome unit) :
  Object.totcol (object context) <= SHRT_MAX ->
  write_mesh w context mesh h = (log, o) ->
  (frame_has_been_written_ w = true \/ Object.totcol (object context) = 0 ->
   double_sided_writes log = []) /\
  (mesh_valid mesh -> quiet -> o = Returned tt) /\
  (o = Returned tt ->
   frame_has_been_written_ w = false ->
   Object.totcol (object context) <> 0 ->
   exists b : bool, double_sided_writes log = [b]).
Proof.
  intros Hshort Hrun. split; [|split].
  - intros Hnot.
    pose proof (write_mesh_emits w context mesh h) as Hall.
    rewrite Hrun in Hall. simpl in Hall.
    eapply omap_nothing; [apply Hall|].
    intros ev [Hgeom | (_ & Hfirst & Hslots)].
    + by destruct ev.
    + destruct Hnot; [congruence | done].
  - intros Hvalid Hquiet.
    pose proof (write_mesh_quiet w context mesh h (or_intror Hshort)
                  Hvalid Hquiet) as Hret.
    by rewrite Hrun in Hret.
  - intros -> Hfirst Hslots.
    destruct (write_mesh_returned w context mesh h log (or_intror Hshort) Hrun)
      as (d & _ & ->).
    unfold write_mesh_script, assign_materials_script.
    assert (Hgeom : double_sided_writes (geometry_script w d) = []).
    { unfold geometry_script. by destruct (crease_lengths d). }
    unfold double_sided_writes in *. rewrite omap_app, Hgeom, app_nil_l, Hfirst.
    destruct (Z.eqb_spec (Object.totcol (object context)) 0); [done|].
    destruct (bound_material context) as [material|]; [|by eexists].
    destruct (subset_scripts_calls context (usd_path_ w)
                (map_in_key_order (face_groups d))) as (_ & Hd & _).
    unfold double_sided_writes in Hd.
    rewrite omap_app.
    destruct (size (face_groups d) <? 2)%nat; [by eexists|].
    rewrite Hd. by eexists.
Qed.

End WriterProperties.

(** ** The claims on the sample inputs *)

Lemma temporary_mesh_released_witness :
  @get_export_mesh temporary_mesh_writer (object (MkHierarchyContext OBquad)) false
    = (Some quad, true) /\
  exists log : list Event,
    @do_write faulty_env temporary_mesh_writer first_frame
      (MkHierarchyContext OBquad) [] = (log, Threw "write failed") /\
    freed_meshes log = [quad].
Proof.
  split; [reflexivity|].
  set (r := @write_mesh faulty_env first_frame (MkHierarchyContext OBquad) quad []).
  assert (Hr : r = (r.1, Threw "write failed")) by (vm_compute; reflexivity).
  destruct (@temporary_mesh_released faulty_env temporary_mesh_writer
              first_frame (MkHierarchyContext OBquad) quad true [] r.1
              (Threw "write failed") eq_refl Hr)
    as (_ & Hthrown & _).
  destruct Hthrown as [Hlog Hfreed]; [right; by eexists|].
  eexists. split; [exact Hlog|].
  rewrite Hlog in Hfreed. exact Hfreed.
Defined.

(** Why the slot count is asked to fit a [short]: beyond it, and with every
    slot empty, the counter of the first loop wraps around below the count
    again and again. *)
Lemma slot_count_beyond_short :
  @assign_materials empty_slots_env (MkHierarchyContext OBcrowded) "/crowded" ∅ []
    = ([], Diverged).
Proof. vm_compute. reflexivity. Qed.

Lemma whole_mesh_binding_witness :
  Object.totcol OBquad <= SHRT_MAX /\
  exists log : list Event,
    @assign_materials quiet_env (MkHierarchyContext OBquad) "/quad" ∅ []
      = (log, Returned tt) /\
    mesh_bindings log = [sample_usd_material MAred] /\
    double_sided_writes log = [false].
Proof.
  assert (Hshort : Object.totcol OBquad <= SHRT_MAX) by (vm_compute; discriminate).
  split; [exact Hshort|].
  set (r := @assign_materials quiet_env (MkHierarchyContext OBquad) "/quad" ∅ []).
  assert (Hr : r = (r.1, Returned tt)) by (vm_compute; reflexivity).
  exists r.1. split; [exact Hr|].
  destruct (@whole_mesh_binding quiet_env (MkHierarchyContext OBquad) "/quad" ∅ []
              r.1 (Returned tt) Hshort Hr) as (_ & Hreturned).
  destruct (Hreturned eq_refl) as (_ & Hfirst & _).
  destruct (Hfirst 1 MAred) as (_ & Hbound & Hsided).
  - simpl. lia.
  - reflexivity.
  - intros j Hj. assert (j = 0) as -> by lia. reflexivity.
  - split; [exact Hbound | exact Hsided].
Defined.

Lemma geometry_subsets_witness :
  Object.totcol OBstrip <= SHRT_MAX /\
  exists log : list Event,
    @assign_materials three_slot_env (MkHierarchyContext OBstrip) "/strip"
      (group_faces_from (Mesh.mpoly strip) 0 ∅) [] = (log, Returned tt) /\
    subsets_created log = [("MAred"%string, [1]); ("MAblue"%string, [0; 2])] /\
    subset_bindings log =
      [("MAred"%string, sample_usd_material MAred);
       ("MAblue"%string, sample_usd_material MAblue)].
Proof.
  assert (Hshort : Object.totcol OBstrip <= SHRT_MAX) by (vm_compute; discriminate).
  split; [exact Hshort|].
  set (r := @assign_materials three_slot_env (MkHierarchyContext OBstrip) "/strip"
              (group_faces_from (Mesh.mpoly strip) 0 ∅) []).
  assert (Hr : r = (r.1, Returned tt)) by (vm_compute; reflexivity).
  exists r.1. split; [exact Hr|].
  destruct (@geometry_subsets three_slot_env (MkHierarchyContext OBstrip) "/strip"
              (group_faces_from (Mesh.mpoly strip) 0 ∅) [] r.1 (Returned tt)
              Hshort Hr) as (_ & _ & Hreturned).
  destruct (Hreturned eq_refl) as (Hsome & _).
  destruct Hsome as [Hcreated Hbound].
  - split; [vm_compute; discriminate | vm_compute; lia].
  - split; [exact Hcreated | exact Hbound].
Defined.

Lemma frozen_after_first_sample_witness :
  frame_has_been_written_ later_frame = true /\
  exists log : list Event,
    @write_mesh quiet_env later_frame (MkHierarchyContext OBquad) quad []
      = (log, Returned tt) /\
    (forall ev : Event, ev ∈ log -> is_material_event ev = false) /\
    length log = 7%nat.
Proof.
  split; [reflexivity|].
  set (r := @write_mesh quiet_env later_frame (MkHierarchyContext OBquad) quad []).
  assert (Hr : r = (r.1, Returned tt)) by (vm_compute; reflexivity).
  exists r.1. split; [exact Hr|].
  destruct (@frozen_after_first_sample quiet_env later_frame
              (MkHierarchyContext OBquad) quad [] r.1 (Returned tt)
              eq_refl Hr) as [Hnone _].
  split; [exact Hnone | vm_compute; reflexivity].
Defined.

(** C9 as it is written fails: on the second time sample of the quad
    [write_mesh] returns and has not created the double-sided attribute. *)
Lemma double_sided_every_call_counterexample :
  mesh_valid quad /\
  exists log : list Event,
    @write_mesh quiet_env later_frame (MkHierarchyContext OBquad) quad []
      = (log, Returned tt) /\
    double_sided_writes log = [].
Proof.
  split; [by_evaluation|].
  eexists. split; vm_compute; reflexivity.
Qed.

Lemma double_sided_first_sample_only_witness :
  Object.totcol OBquad <= SHRT_MAX /\
  exists log : list Event,
    @write_mesh quiet_env first_frame (MkHierarchyContext OBquad) quad []
      = (log, Returned tt) /\
    exists b : bool, double_sided_writes log = [b].
Proof.
  assert (Hshort : Object.totcol OBquad <= SHRT_MAX) by (vm_compute; discriminate).
  split; [exact Hshort|].
  set (r := @write_mesh quiet_env first_frame (MkHierarchyContext OBquad) quad []).
  assert (Hr : r = (r.1, Returned tt)) by (vm_compute; reflexivity).
  exists r.1. split; [exact Hr|].
  destruct (@double_sided_first_sample_only quiet_env first_frame
              (MkHierarchyContext OBquad) quad [] r.1 (Returned tt) Hshort Hr)
    as (_ & _ & Honce).
  apply Honce; [reflexivity | reflexivity | vm_compute; discriminate].
Defined.


(** * Properties beyond the claims *)

(** ** Extraction into buffers that already hold data *)

Lemma get_geometry_data_from (mesh : Mesh.t) (d : USDMeshData) :
  mesh_valid mesh ->
  get_geometry_data mesh d =
    Some (MkUSDMeshData
            (points d ++ points (spec_geometry_data mesh))
            (face_vertex_counts d ++ face_vertex_counts (spec_geometry_data mesh))
            (face_indices d ++ face_indices (spec_geometry_data mesh))
            (if 1 <? Mesh.totcol mesh
             then group_faces_from (Mesh.mpoly mesh) 0 (face_groups d)
             else face_groups d)
            (crease_lengths d ++ crease_lengths (spec_geometry_data mesh))
            (crease_vertex_indices d
               ++ crease_vertex_indices (spec_geometry_data mesh))
            (crease_sharpnesses d ++ crease_sharpnesses (spec_geometry_data mesh))).
Proof.
  intros (Hvert & Hmax & Hedge & Hpoly & Hloop & Hpolys & Hloops & Hedges).
  unfold get_geometry_data, get_vertices, get_loops_polys, get_creases.
  rewrite get_vertices_loop_spec by lia. simpl.
  rewrite get_loops_polys_loop_spec by (try done; lia). simpl.
  rewrite (get_creases_loop_spec mesh) by (try done; lia). simpl.
  rewrite Hvert, Hedge, Hpoly, !Nat2Z.id, !drop_0, !firstn_all.
  by destruct (1 <? Mesh.totcol mesh).
Qed.

Lemma group_faces_from_append (ps : list MPoly.t) (g : gmap Z (list Z)) :
  group_faces_from ps 0 g = append_groups g (group_faces_from ps 0 ∅).
Proof.
  apply map_eq. intros k. unfold append_groups.
  rewrite lookup_union_with, !group_faces_from_lookup, lookup_empty.
  destruct (polys_in_slot_from ps 0 k) as [|x xs], (g !! k) as [l|]; simpl;
    try reflexivity.
Qed.

(** X1: on a well-formed mesh [get_geometry_data] adds to the buffers it is
    given: each array is the array it was given followed by what the
    extraction into empty buffers yields, and the face groups are those it
    was given with, slot by slot, the extracted polygon indices appended. *)
Theorem extraction_appends (mesh : Mesh.t) (d : USDMeshData) :
  mesh_valid mesh ->
  exists s r : USDMeshData,
    get_geometry_data mesh USDMeshData_empty = Some s /\
    get_geometry_data mesh d = Some r /\
    points r = points d ++ points s /\
    face_vertex_counts r = face_vertex_counts d ++ face_vertex_counts s /\
    face_indices r = face_indices d ++ face_indices s /\
    face_groups r = append_groups (face_groups d) (face_groups s) /\
    crease_lengths r = crease_lengths d ++ crease_lengths s /\
    crease_vertex_indices r = crease_vertex_indices d ++ crease_vertex_indices s /\
    crease_sharpnesses r = crease_sharpnesses d ++ crease_sharpnesses s.
Proof.
  intros Hvalid. eexists _, _.
  split; [by apply get_geometry_data_spec|].
  split; [by apply get_geometry_data_from|].
  simpl. repeat split.
  destruct (1 <? Mesh.totcol mesh).
  - apply group_faces_from_append.
  - apply map_eq. intros k. unfold append_groups.
    rewrite lookup_union_with, lookup_empty. by destruct (face_groups d !! k).
Qed.

Lemma extraction_appends_witness :
  mesh_valid strip /\
  exists r : USDMeshData,
    (get_geometry_data strip USDMeshData_empty ≫= get_geometry_data strip) = Some r /\
    face_vertex_counts r = [3; 3; 3; 3; 3; 3] /\
    face_groups r !! 2 = Some [0; 2; 0; 2].
Proof.
  assert (Hvalid : mesh_valid strip) by by_evaluation.
  split; [exact Hvalid|].
  destruct (extraction_appends strip (spec_geometry_data strip) Hvalid)
    as (s & r & Hs & Hr & _ & Hcounts & _ & Hgroups & _).
  exists r. rewrite (get_geometry_data_spec strip Hvalid). simpl.
  split; [exact Hr|].
  rewrite (get_geometry_data_spec strip Hvalid) in Hs. injection Hs as <-.
  rewrite Hcounts, Hgroups. split; vm_compute; reflexivity.
Defined.

(** ** The buffers as a mesh of their own *)

Lemma poly_vertices_valid (mesh : Mesh.t) (p : MPoly.t) :
  Forall (loop_valid mesh) (Mesh.mloop mesh) ->
  Forall (fun i => 0 <= i < Mesh.totvert mesh)
    (poly_vertices (Mesh.mloop mesh) p).
Proof.
  intros Hloops. unfold poly_vertices.
  apply Forall_fmap. by apply Forall_take_drop.
Qed.

(** X2: the buffers extracted from a well-formed mesh are well-formed in
    turn: every face vertex index and every crease vertex index names one
    of the points written, every face vertex count is non-negative, and
    every crease length is 2. *)
Theorem extracted_indices_in_range (mesh : Mesh.t) :
  mesh_valid mesh ->
  exists d : USDMeshData,
    get_geometry_data mesh USDMeshData_empty = Some d /\
    Forall (fun i => 0 <= i < Z.of_nat (length (points d))) (face_indices d) /\
    Forall (fun i => 0 <= i < Z.of_nat (length (points d)))
      (crease_vertex_indices d) /\
    Forall (fun n => 0 <= n) (face_vertex_counts d) /\
    Forall (fun n => n = 2) (crease_lengths d).
Proof.
  intros Hvalid. exists (spec_geometry_data mesh).
  split; [by apply get_geometry_data_spec|].
  destruct Hvalid as (Hvert & _ & _ & _ & _ & Hpolys & Hloops & Hedges).
  simpl. rewrite length_fmap, <- Hvert.
  split; [|split; [|split]].
  - apply Forall_concat, Forall_fmap, Forall_forall.
    intros p _. by apply poly_vertices_valid.
  - apply Forall_bind. eapply Forall_impl; [apply Hedges|].
    intros e (Hv1 & Hv2 & _). unfold crease_run_indices. simpl.
    destruct (MEdge.crease e =? 0); [constructor|].
    constructor; [lia|]. constructor; [lia|]. constructor.
  - apply Forall_fmap. eapply Forall_impl; [apply Hpolys|].
    by intros p (_ & Hcount & _).
  - apply Forall_bind, Forall_forall. intros e _. unfold crease_run_length.
    simpl. destruct (MEdge.crease e =? 0); [constructor|].
    constructor; [reflexivity | constructor].
Qed.

Lemma extracted_indices_in_range_witness :
  mesh_valid quad /\
  exists d : USDMeshData,
    get_geometry_data quad USDMeshData_empty = Some d /\
    Forall (fun i => 0 <= i < Z.of_nat (length (points d))) (face_indices d) /\
    Forall (fun i => 0 <= i < Z.of_nat (length (points d)))
      (crease_vertex_indices d) /\
    Forall (fun n => 0 <= n) (face_vertex_counts d) /\
    Forall (fun n => n = 2) (crease_lengths d).
Proof.
  assert (Hvalid : mesh_valid quad) by by_evaluation.
  split; [exact Hvalid | exact (extracted_indices_in_range quad Hvalid)].
Defined.

(** ** The scale of sharpness *)

Lemma sharpness_in_range_all :
  forallb sharpness_in_range (seqZ 1 254) = true.
Proof. vm_compute. reflexivity. Qed.

Lemma sharpness_steps_up_all :
  forallb sharpness_steps_up (seqZ 1 253) = true.
Proof. vm_compute. reflexivity. Qed.

Lemma sharpness_step (w : Z) :
  0 < w < 254 ->
  (Q_of_float32 (crease_sharpness w) < Q_of_float32 (crease_sharpness (w + 1)))%Q.
Proof.
  intros Hw. pose proof sharpness_steps_up_all as Hall.
  rewrite forallb_forall in Hall.
  assert (Hin : In w (seqZ 1 253)) by (apply list_elem_of_In, elem_of_seqZ; lia).
  specialize (Hall w Hin). unfold sharpness_steps_up in Hall.
  apply negb_true_iff in Hall. apply Qnot_le_lt. intros Hle.
  apply Qle_bool_iff in Hle. congruence.
Qed.

(** X3: between the weights 0 and 255 the sharpness is a strictly
    increasing scale of values strictly between 0 and 1, none of which is
    the sentinel [SHARPNESS_INFINITE]: weights that differ give sharpnesses
    that differ, in the same order. *)
Theorem sharpness_scale (w1 w2 : Z) :
  0 < w1 -> w1 < w2 -> w2 < 255 ->
  (0 < Q_of_float32 (crease_sharpness w1))%Q /\
  (Q_of_float32 (crease_sharpness w1) < Q_of_float32 (crease_sharpness w2))%Q /\
  (Q_of_float32 (crease_sharpness w2) < 1)%Q /\
  SFeqb (crease_sharpness w1) SHARPNESS_INFINITE = false /\
  SFeqb (crease_sharpness w2) SHARPNESS_INFINITE = false.
Proof.
  intros Hpos Hlt Hmax.
  assert (Hrange : forall w, 0 < w < 255 -> sharpness_in_range w = true).
  { intros w Hw. pose proof sharpness_in_range_all as Hall.
    rewrite forallb_forall in Hall. apply Hall.
    apply list_elem_of_In, elem_of_seqZ. lia. }
  pose proof (Hrange w1 ltac:(lia)) as H1.
  pose proof (Hrange w2 ltac:(lia)) as H2.
  unfold sharpness_in_range in H1, H2. cbv zeta in H1, H2.
  apply andb_true_iff in H1 as [H1 Hne1]. apply andb_true_iff in H1 as [Hlow1 _].
  apply andb_true_iff in H2 as [H2 Hne2]. apply andb_true_iff in H2 as [_ Hhigh2].
  apply negb_true_iff in Hlow1, Hhigh2, Hne1, Hne2.
  split; [|split; [|split; [|split]]]; try done.
  - apply Qnot_le_lt. intros Hle. apply Qle_bool_iff in Hle. congruence.
  - assert (Hchain : forall n : nat,
              w1 + 1 + Z.of_nat n < 255 ->
              (Q_of_float32 (crease_sharpness w1)
                 < Q_of_float32 (crease_sharpness (w1 + 1 + Z.of_nat n)))%Q).
    { induction n as [|n IH]; intros Hn.
      - replace (w1 + 1 + Z.of_nat 0) with (w1 + 1) by lia.
        apply sharpness_step. lia.
      - eapply Qlt_trans; [apply IH; lia|].
        replace (w1 + 1 + Z.of_nat (S n)) with (w1 + 1 + Z.of_nat n + 1) by lia.
        apply sharpness_step. lia. }
    replace w2 with (w1 + 1 + Z.of_nat (Z.to_nat (w2 - w1 - 1))) by lia.
    apply Hchain. lia.
  - apply Qnot_le_lt. intros Hle. apply Qle_bool_iff in Hle. congruence.
Qed.

Lemma sharpness_scale_witness :
  0 < 1 /\ 1 < 254 /\ 254 < 255 /\
  (Q_of_float32 (crease_sharpness 1) < Q_of_float32 (crease_sharpness 254))%Q.
Proof.
  assert (H1 : 0 < 1) by lia.
  assert (H2 : 1 < 254) by lia.
  assert (H3 : 254 < 255) by lia.
  split; [exact H1|]. split; [exact H2|]. split; [exact H3|].
  exact (proj1 (proj2 (sharpness_scale 1 254 H1 H2 H3))).
Defined.

(** ** The writer beyond the claims *)

Lemma short_of_int_range (i : Z) : - 32768 <= short_of_int i <= SHRT_MAX.
Proof.
  unfold short_of_int, SHRT_MAX.
  pose proof (Z.mod_pos_bound (i + 32768) 65536 ltac:(lia)). lia.
Qed.

Lemma sorted_lt_NoDup (l : list Z) : StronglySorted Z.lt l -> NoDup l.
Proof.
  induction 1 as [|x xs Hs IH Hall]; constructor; [|done].
  intros Hx. rewrite Forall_forall in Hall. specialize (Hall _ Hx). lia.
Qed.

Lemma map_in_key_order_NoDup (m : gmap Z (list Z)) :
  NoDup (map_in_key_order m).*1.
Proof.
  unfold map_in_key_order.
  rewrite (merge_sort_Permutation key_le (map_to_list m)).
  apply NoDup_fst_map_to_list.
Qed.

Lemma crease_runs_empty (es : list MEdge.t) :
  es ≫= crease_run_length = [] <-> Forall (fun e => MEdge.crease e = 0) es.
Proof.
  induction es as [|e es IH].
  - split; [constructor | reflexivity].
  - rewrite bind_cons, Forall_cons, <- IH. unfold crease_run_length at 1.
    destruct (Z.eqb_spec (MEdge.crease e) 0) as [Hzero|Hcrease]; simpl.
    + tauto.
    + split; [discriminate | tauto].
Qed.

(** When every polygon is of slot [k] there is at most the group of [k]. *)
Lemma single_slot_groups (ps : list MPoly.t) (k : Z) :
  Forall (fun p => MPoly.mat_nr p = k) ps ->
  (size (group_faces_from ps 0 ∅) < 2)%nat.
Proof.
  intros Hall.
  assert (Hother : forall k', k' <> k -> group_faces_from ps 0 ∅ !! k' = None).
  { intros k' Hne. rewrite group_faces_from_lookup, lookup_empty.
    destruct (polys_in_slot_from ps 0 k') as [|x xs] eqn:Hpolys; [done|].
    assert (Hx : x ∈ polys_in_slot_from ps 0 k') by (rewrite Hpolys; left).
    apply elem_of_polys_in_slot_from in Hx as (j & p & Hp & _ & Hk).
    rewrite Forall_forall in Hall.
    specialize (Hall p (list_elem_of_lookup_2 _ _ _ Hp)). congruence. }
  destruct (group_faces_from ps 0 ∅ !! k) as [l|] eqn:Hk.
  - assert (Heq : group_faces_from ps 0 ∅ = {[k := l]}).
    { apply map_eq. intros k'. destruct (decide (k' = k)) as [->|Hne].
      - by rewrite lookup_singleton_eq.
      - rewrite lookup_singleton_ne by done. by apply Hother. }
    rewrite Heq, map_size_singleton. lia.
  - assert (Heq : group_faces_from ps 0 ∅ = ∅).
    { apply map_eq. intros k'. rewrite lookup_empty.
      destruct (decide (k' = k)) as [->|Hne]; [done | by apply Hother]. }
    rewrite Heq, map_size_empty. lia.
Qed.

Section WriterExtras.

Context {env : Collaborators}.

Lemma run_calls_threw (s : list Event) :
  forall (h l : list Event) (e : exn),
    run_calls s h = (l, Threw e) ->
    exists (pre : list Event) (ev : Event),
      l = pre ++ [ev] /\ throws (h ++ pre) ev = Some e /\ l `prefix_of` s.
Proof.
  induction s as [|ev s IH]; intros h l e; simpl; [discriminate|].
  destruct (throws h ev) as [e'|] eqn:Hthrows.
  - intros [= <- <-]. exists [], ev.
    rewrite app_nil_r. split; [done|]. split; [done|]. by exists s.
  - destruct (run_calls s (h ++ [ev])) as [l' o] eqn:Hrun.
    intros [= <- ->].
    destruct (IH _ _ _ Hrun) as (pre & ev' & -> & Hthrew & Hprefix).
    exists (ev :: pre), ev'. split; [done|].
    rewrite <- app_assoc in Hthrew. split; [done|]. by apply prefix_cons.
Qed.

Lemma run_calls_app_returned (s1 s2 : list Event) (h l : list Event) (u : unit) :
  run_calls (s1 ++ s2) h = (l, Returned u) ->
  run_calls s1 h = (s1, Returned tt) /\
  run_calls s2 (h ++ s1) = (s2, Returned tt).
Proof.
  rewrite run_calls_app.
  destruct (run_calls s1 h) as [l1 [[]| | |]] eqn:H1; try discriminate.
  destruct (run_calls s2 (h ++ l1)) as [l2 o2] eqn:H2.
  intros [= <- ->].
  pose proof (run_calls_returned _ _ _ _ H1) as ->.
  destruct u.
  pose proof (run_calls_returned _ _ _ _ H2) as ->.
  done.
Qed.

Lemma assign_materials_script_material (context : HierarchyContext)
    (usd_mesh : SdfPath) (usd_face_groups : gmap Z (list Z)) :
  Forall (fun ev => is_material_event ev = true)
    (assign_materials_script context usd_mesh usd_face_groups).
Proof.
  unfold assign_materials_script.
  destruct (Object.totcol (object context) =? 0); [constructor|].
  destruct (bound_material context) as [material|];
    [|by repeat constructor].
  apply Forall_app. split; [by repeat constructor|].
  destruct (size usd_face_groups <? 2)%nat; [constructor|].
  apply Forall_bind, Forall_forall. intros group _. unfold subset_script.
  simpl. destruct (group_material context group); by repeat constructor.
Qed.

(** The subsets of a script: none unless a material is bound to the whole
    mesh and there are two face groups; then those of the groups. *)
Lemma write_mesh_script_subsets (w : USDAbstractWriter)
    (context : HierarchyContext) (d : USDMeshData) :
  let subset_of (group : Z * list Z) :=
    material ← group_material context group;
    Some (material_name_token (usd_material_of material), group.2) in
  subsets_created (write_mesh_script w context d) = [] /\
  subset_bindings (write_mesh_script w context d) = [] \/
  (2 <= size (face_groups d))%nat /\
  subsets_created (write_mesh_script w context d) =
    omap subset_of (map_in_key_order (face_groups d)).
Proof.
  cbv zeta. unfold write_mesh_script, assign_materials_script.
  assert (Hgeom : subsets_created (geometry_script w d) = [] /\
                  subset_bindings (geometry_script w d) = []).
  { unfold geometry_script. by destruct (crease_lengths d). }
  destruct Hgeom as [Hg1 Hg2].
  destruct (subset_scripts_calls context (usd_path_ w)
              (map_in_key_order (face_groups d))) as (_ & _ & _ & Hc & _).
  unfold subsets_created, subset_bindings in *.
  rewrite !omap_app, Hg1, Hg2, !app_nil_l.
  destruct (frame_has_been_written_ w); [by left|].
  destruct (Object.totcol (object context) =? 0); [by left|].
  destruct (bound_material context) as [material|]; [|by left].
  rewrite !omap_app. simpl.
  destruct (Nat.ltb_spec (size (face_groups d)) 2) as [Hfew|Hmany]; [by left|].
  right. split; [done|]. exact Hc.
Qed.

(** X4: under [USDMeshWriter], [do_write] is [write_mesh] on the evaluated
    mesh of the object, with the same calls and the same ending whatever it
    is, and so never releases that mesh; for an object without evaluated
    mesh it prints the skip message, makes no other call and returns. *)
Theorem mesh_writer_wraps_write_mesh (w : USDAbstractWriter)
    (context : HierarchyContext) (h : list Event) :
  @do_write env USDMeshWriter w context h =
    match Object.runtime_mesh_eval (object context) with
    | Some mesh => write_mesh w context mesh h
    | None =>
        ([EvPrintfSkipping (Object.id_name (object context))
            (Object.type (object context))], Returned tt)
    end.
Proof.
  unfold do_write. simpl.
  destruct (Object.runtime_mesh_eval (object context)) as [mesh|]; [|reflexivity].
  unfold try_catch, mbind, M_bind, bind.
  destruct (write_mesh w context mesh h) as [l [[]|e| |]]; simpl;
    by rewrite ?app_nil_r.
Qed.

(** X5: a call of [write_mesh] that returns on a well-formed mesh writes the
    three crease arrays when some edge has a crease weight other than 0,
    and writes none of them when every edge has weight 0. *)
Theorem crease_arrays_when_creased (w : USDAbstractWriter)
    (context : HierarchyContext) (mesh : Mesh.t) (h log : list Event) :
  mesh_valid mesh ->
  frame_has_been_written_ w = true \/ Object.totcol (object context) <= SHRT_MAX ->
  write_mesh w context mesh h = (log, Returned tt) ->
  (Forall (fun e => MEdge.crease e = 0) (Mesh.medge mesh) ->
   Forall (fun ev => is_crease_event ev = false) log) /\
  (Exists (fun e => MEdge.crease e <> 0) (Mesh.medge mesh) ->
   exists d : USDMeshData,
     get_geometry_data mesh USDMeshData_empty = Some d /\
     crease_lengths d <> [] /\
     EvSetCreaseLengths (usd_path_ w) (crease_lengths d)
       (get_export_time_code w) ∈ log /\
     EvSetCreaseIndices (usd_path_ w) (crease_vertex_indices d)
       (get_export_time_code w) ∈ log /\
     EvSetCreaseSharpnesses (usd_path_ w) (crease_sharpnesses d)
       (get_export_time_code w) ∈ log).
Proof.
  intros Hvalid Hloop Hrun.
  destruct (write_mesh_returned w context mesh h log Hloop Hrun) as (d & Hd & ->).
  pose proof (get_geometry_data_spec mesh Hvalid) as Hspec.
  rewrite Hd in Hspec. injection Hspec as Hspec.
  assert (Hlengths : crease_lengths d = Mesh.medge mesh ≫= crease_run_length)
    by (by rewrite Hspec).
  unfold write_mesh_script, geometry_script.
  split.
  - intros Hzero. apply crease_runs_empty in Hzero.
    rewrite Hlengths, Hzero.
    apply Forall_app. split; [by repeat constructor|].
    destruct (frame_has_been_written_ w); [constructor|].
    eapply Forall_impl; [apply assign_materials_script_material|].
    intros ev Hmat. by destruct ev.
  - intros Hsome. exists d. split; [done|].
    assert (Hne : crease_lengths d <> []).
    { rewrite Hlengths. intros Hnil. apply crease_runs_empty in Hnil.
      apply Exists_exists in Hsome as (e & He & Hcrease).
      rewrite Forall_forall in Hnil. by apply Hcrease, Hnil. }
    split; [done|].
    destruct (crease_lengths d) as [|c cs] eqn:Hc; [done|].
    rewrite !elem_of_app.
    split; [|split]; left; right; by repeat constructor.
Qed.

(** X6: when a call of [write_mesh] on a well-formed mesh throws, what it
    has called is the throwing call and, before it, the calls that
    [write_mesh] makes in the same order when nothing throws; no later call
    has been made. *)
Theorem exception_cuts_the_calls (w : USDAbstractWriter)
    (context : HierarchyContext) (mesh : Mesh.t) (h log : list Event) (e : exn) :
  mesh_valid mesh ->
  frame_has_been_written_ w = true \/ Object.totcol (object context) <= SHRT_MAX ->
  write_mesh w context mesh h = (log, Threw e) ->
  exists (pre : list Event) (ev : Event) (full : list Event),
    log = pre ++ [ev] /\
    throws (h ++ pre) ev = Some e /\
    @write_mesh (silenced env) w context mesh h = (full, Returned tt) /\
    log `prefix_of` full.
Proof.
  intros Hvalid Hloop Hrun.
  pose proof (get_geometry_data_spec mesh Hvalid) as Hd.
  pose proof (write_mesh_scripted w context mesh _ Hd Hloop h) as Hs.
  rewrite Hrun in Hs.
  destruct (run_calls (write_mesh_script w context (spec_geometry_data mesh)) h)
    as [l [u|e'| |]] eqn:Hcalls; try discriminate.
  injection Hs as <- <-.
  destruct (run_calls_threw _ _ _ _ Hcalls) as (pre & ev & -> & Hthrew & Hprefix).
  exists pre, ev, (write_mesh_script w context (spec_geometry_data mesh)).
  split; [done|]. split; [done|]. split; [|done].
  assert (Hquiet : @quiet (silenced env)) by (by intros ? ?).
  exact (@scripted_quiet (silenced env) _ _ _ _ h Hquiet
           (@write_mesh_scripted (silenced env) w context mesh _ Hd Hloop)).
Qed.

(** X7: the first time sample is a later time sample followed by material
    assignment.  A call of [write_mesh] that returns when no time sample was
    written before has made the calls that [write_mesh] makes from the same
    point when one was, and after them the calls of [assign_materials] on
    the extracted face groups; both of these return. *)
Theorem first_sample_adds_materials (w : USDAbstractWriter)
    (context : HierarchyContext) (mesh : Mesh.t) (h log : list Event) :
  frame_has_been_written_ w = false ->
  Object.totcol (object context) <= SHRT_MAX ->
  write_mesh w context mesh h = (log, Returned tt) ->
  let later :=
    MkUSDAbstractWriter (usd_path_ w) true (export_time_code w) in
  exists (d : USDMeshData) (g a : list Event),
    get_geometry_data mesh USDMeshData_empty = Some d /\
    write_mesh later context mesh h = (g, Returned tt) /\
    assign_materials context (usd_path_ w) (face_groups d) (h ++ g)
      = (a, Returned tt) /\
    log = g ++ a.
Proof.
  intros Hfirst Hshort Hrun later.
  destruct (write_mesh_returned w context mesh h log (or_intror Hshort) Hrun)
    as (d & Hd & ->).
  pose proof (write_mesh_scripted w context mesh d Hd (or_intror Hshort) h) as Hs.
  rewrite Hrun in Hs. unfold write_mesh_script in Hs. rewrite Hfirst in Hs.
  destruct (run_calls (geometry_script w d ++
              assign_materials_script context (usd_path_ w) (face_groups d)) h)
    as [l [u| | |]] eqn:Hcalls; try discriminate.
  destruct (run_calls_app_returned _ _ _ _ _ Hcalls) as [Hgeom Hassign].
  exists d, (geometry_script w d),
    (assign_materials_script context (usd_path_ w) (face_groups d)).
  split; [done|]. split; [|split].
  - rewrite (write_mesh_scripted later context mesh d Hd (or_introl eq_refl) h).
    unfold write_mesh_script. simpl frame_has_been_written_.
    rewrite app_nil_r.
    change (geometry_script later d) with (geometry_script w d).
    by rewrite Hgeom.
  - rewrite (assign_materials_scripted context (usd_path_ w) (face_groups d)
               Hshort (h ++ geometry_script w d)).
    by rewrite Hassign.
  - unfold write_mesh_script. by rewrite Hfirst.
Qed.

(** The lists of groups that are the polygons of distinct slots share no
    polygon, whichever of them become subsets. *)
Lemma subsets_disjoint (context : HierarchyContext) (ps : list MPoly.t)
    (groups : list (Z * list Z)) :
  NoDup groups.*1 ->
  (forall (k : Z) (l : list Z),
     (k, l) ∈ groups -> l = polys_in_slot_from ps 0 k) ->
  NoDup (mjoin (omap (fun group =>
                        material ← group_material context group;
                        Some (material_name_token (usd_material_of material),
                              group.2)) groups).*2).
Proof.
  induction groups as [|[k l] groups IH]; intros Hkeys Hpolys; [constructor|].
  rewrite fmap_cons in Hkeys. apply NoDup_cons in Hkeys as [Hfresh Hkeys].
  assert (Hrest : forall k' l', (k', l') ∈ groups ->
                                l' = polys_in_slot_from ps 0 k').
  { intros k' l' Hin. apply Hpolys. by right. }
  specialize (IH Hkeys Hrest).
  change (omap ?f ((k, l) :: groups))
    with (match f (k, l) with
          | Some y => y :: omap f groups
          | None => omap f groups
          end).
  simpl. destruct (group_material context (k, l)) as [material|]; [|exact IH].
  simpl. apply NoDup_app. split; [|split; [|exact IH]].
  - rewrite (Hpolys k l) by left.
    apply sorted_lt_NoDup, polys_in_slot_from_sorted.
  - intros x Hx Hjoin.
    apply list_elem_of_join in Hjoin as (l' & Hx' & Hl').
    apply list_elem_of_fmap in Hl' as ([name' l''] & -> & Hsub).
    apply list_elem_of_omap in Hsub as ([k' l3] & Hgroup & Hof).
    simpl in Hof, Hx'.
    destruct (group_material context (k', l3)); [|discriminate].
    injection Hof as _ <-.
    rewrite (Hpolys k l) in Hx by left.
    rewrite (Hrest k' l3 Hgroup) in Hx'.
    apply elem_of_polys_in_slot_from in Hx as (j & p & Hp & -> & Hk).
    apply elem_of_polys_in_slot_from in Hx' as (j' & p' & Hp' & Hj & Hk').
    assert (j' = j) as -> by lia.
    apply Hfresh. apply list_elem_of_fmap. exists (k', l3).
    split; [|done]. simpl. congruence.
Qed.

(** X8: in a call of [write_mesh] that returns on a well-formed mesh, every
    geometry subset created is named after the material of one slot and
    holds, in increasing order, exactly the indices of the polygons of that
    slot, of which there is at least one; and no polygon index is in two
    subsets, or twice in one. *)
Theorem subsets_partition_polygons (w : USDAbstractWriter)
    (context : HierarchyContext) (mesh : Mesh.t) (h log : list Event) :
  mesh_valid mesh ->
  frame_has_been_written_ w = true \/ Object.totcol (object context) <= SHRT_MAX ->
  write_mesh w context mesh h = (log, Returned tt) ->
  (forall (name : string) (fi : list Z),
     (name, fi) ∈ subsets_created log ->
     exists (k : Z) (material : Material.t),
       give_current_material (object context) (short_of_int (k + 1))
         = Some material /\
       name = material_name_token (usd_material_of material) /\
       fi <> [] /\
       StronglySorted Z.lt fi /\
       forall x : Z,
         x ∈ fi <->
         0 <= x /\
         exists p : MPoly.t,
           Mesh.mpoly mesh !! Z.to_nat x = Some p /\ MPoly.mat_nr p = k) /\
  NoDup (mjoin (subsets_created log).*2).
Proof.
  intros Hvalid Hloop Hrun.
  destruct (write_mesh_returned w context mesh h log Hloop Hrun) as (d & Hd & ->).
  pose proof (get_geometry_data_spec mesh Hvalid) as Hspec.
  rewrite Hd in Hspec. injection Hspec as ->.
  destruct (write_mesh_script_subsets w context (spec_geometry_data mesh))
    as [[Hnone _] | [_ Hsubsets]].
  { rewrite Hnone. split; [|constructor]. by intros name fi ?%elem_of_nil. }
  rewrite Hsubsets. clear Hsubsets.
  destruct (map_in_key_order_spec (face_groups (spec_geometry_data mesh)))
    as [_ Hgroups].
  assert (Hpolys : forall k l,
            (k, l) ∈ map_in_key_order (face_groups (spec_geometry_data mesh)) ->
            l = polys_in_slot_from (Mesh.mpoly mesh) 0 k /\ l <> []).
  { intros k l Hin. apply Hgroups in Hin. simpl in Hin.
    destruct (1 <? Mesh.totcol mesh); [|by rewrite lookup_empty in Hin].
    by apply group_faces_lookup_Some. }
  split.
  - intros name fi Hin.
    apply list_elem_of_omap in Hin as ([k l] & Hgroup & Hof).
    simpl in Hof. unfold group_material in Hof. simpl in Hof.
    destruct (give_current_material (object context) (short_of_int (k + 1)))
      as [material|] eqn:Hmat; [|discriminate].
    injection Hof as <- <-.
    destruct (Hpolys k l Hgroup) as [-> Hne].
    exists k, material. split; [done|]. split; [done|]. split; [done|].
    split; [apply polys_in_slot_from_sorted|].
    intros x. rewrite elem_of_polys_in_slot_from. split.
    + intros (j & p & Hp & -> & Hk). split; [lia|]. exists p.
      split; [|done]. by replace (Z.to_nat (0 + Z.of_nat j)) with j by lia.
    + intros (Hx & p & Hp & Hk). exists (Z.to_nat x), p.
      split; [done|]. split; [lia | done].
  - apply (subsets_disjoint context (Mesh.mpoly mesh)).
    + apply map_in_key_order_NoDup.
    + intros k l Hin. by destruct (Hpolys k l Hin).
Qed.

(** X9: a call of [write_mesh] that returns on a well-formed mesh creates
    and binds no geometry subset when the mesh has at most one material slot
    or when all its polygons are of one slot, however many slots the object
    has. *)
Theorem no_subsets_without_choice (w : USDAbstractWriter)
    (context : HierarchyContext) (mesh : Mesh.t) (h log : list Event) :
  mesh_valid mesh ->
  frame_has_been_written_ w = true \/ Object.totcol (object context) <= SHRT_MAX ->
  write_mesh w context mesh h = (log, Returned tt) ->
  Mesh.totcol mesh <= 1 \/
  (exists k : Z, Forall (fun p => MPoly.mat_nr p = k) (Mesh.mpoly mesh)) ->
  subsets_created log = [] /\ subset_bindings log = [].
Proof.
  intros Hvalid Hloop Hrun Hsingle.
  destruct (write_mesh_returned w context mesh h log Hloop Hrun) as (d & Hd & ->).
  pose proof (get_geometry_data_spec mesh Hvalid) as Hspec.
  rewrite Hd in Hspec. injection Hspec as ->.
  destruct (write_mesh_script_subsets w context (spec_geometry_data mesh))
    as [Hnone | [Hmany _]]; [exact Hnone|].
  exfalso. simpl in Hmany.
  destruct (Z.ltb_spec 1 (Mesh.totcol mesh)) as [Hcol|Hcol].
  - destruct Hsingle as [Hfew | [k Hall]]; [lia|].
    pose proof (single_slot_groups _ k Hall). lia.
  - rewrite map_size_empty in Hmany. lia.
Qed.

Lemma bind_first_material_never_ends (context : HierarchyContext)
    (usd_mesh : SdfPath) (fuel : nat) :
  SHRT_MAX < Object.totcol (object context) ->
  (forall act : Z, - 32768 <= act <= SHRT_MAX ->
     give_current_material (object context) act = None) ->
  forall (mat_num : Z) (h : list Event),
    mat_num <= SHRT_MAX ->
    bind_first_material context usd_mesh fuel mat_num h = ([], Diverged).
Proof.
  intros Hmany Hempty.
  induction fuel as [|fuel IH]; intros mat_num h Hshort; [reflexivity|].
  simpl. destruct (Z.ltb_spec mat_num (Object.totcol (object context))); [|lia].
  rewrite Hempty by apply short_of_int_range.
  apply IH. apply short_of_int_range.
Qed.

(** X10: for an object with more material slots than [SHRT_MAX], all of them
    empty, [assign_materials] never ends and makes no call: the counter of
    its first loop, a [short], wraps around before it reaches the count. *)
Theorem slot_scan_never_ends (context : HierarchyContext) (usd_mesh : SdfPath)
    (usd_face_groups : gmap Z (list Z)) (h : list Event) :
  SHRT_MAX < Object.totcol (object context) ->
  (forall act : Z, - 32768 <= act <= SHRT_MAX ->
     give_current_material (object context) act = None) ->
  assign_materials context usd_mesh usd_face_groups h = ([], Diverged).
Proof.
  intros Hmany Hempty. unfold assign_materials.
  destruct (Z.eqb_spec (Object.totcol (object context)) 0) as [Hzero|_];
    [unfold SHRT_MAX in Hmany; lia|].
  unfold mbind, M_bind, bind.
  by rewrite (bind_first_material_never_ends context usd_mesh _ Hmany Hempty)
    by (unfold SHRT_MAX; lia).
Qed.

End WriterExtras.

(** ** The properties beyond the claims on the sample inputs *)

Lemma crease_arrays_when_creased_witness :
  mesh_valid quad /\
  exists log : list Event,
    @write_mesh quiet_env later_frame (MkHierarchyContext OBquad) quad []
      = (log, Returned tt) /\
    exists d : USDMeshData,
      get_geometry_data quad USDMeshData_empty = Some d /\
      EvSetCreaseLengths (usd_path_ later_frame) (crease_lengths d)
        (get_export_time_code later_frame) ∈ log.
Proof.
  assert (Hvalid : mesh_valid quad) by by_evaluation.
  split; [exact Hvalid|].
  set (r := @write_mesh quiet_env later_frame (MkHierarchyContext OBquad) quad []).
  assert (Hr : r = (r.1, Returned tt)) by (vm_compute; reflexivity).
  exists r.1. split; [exact Hr|].
  destruct (@crease_arrays_when_creased quiet_env later_frame
              (MkHierarchyContext OBquad) quad [] r.1 Hvalid
              (or_introl eq_refl) Hr) as [_ Hsome].
  destruct Hsome as (d & Hd & _ & Hlengths & _).
  - apply Exists_exists. exists (MEdge.Build 1 2 255).
    split; [by repeat constructor | discriminate].
  - exists d. split; [exact Hd | exact Hlengths].
Defined.

Lemma exception_cuts_the_calls_witness :
  mesh_valid quad /\
  exists (log pre : list Event) (ev : Event),
    @write_mesh faulty_env first_frame (MkHierarchyContext OBquad) quad []
      = (log, Threw "write failed") /\
    log = pre ++ [ev] /\ length pre = 3%nat.
Proof.
  assert (Hvalid : mesh_valid quad) by by_evaluation.
  assert (Hshort : Object.totcol OBquad <= SHRT_MAX) by (vm_compute; discriminate).
  split; [exact Hvalid|].
  set (r := @write_mesh faulty_env first_frame (MkHierarchyContext OBquad) quad []).
  assert (Hr : r = (r.1, Threw "write failed")) by (vm_compute; reflexivity).
  destruct (@exception_cuts_the_calls faulty_env first_frame
              (MkHierarchyContext OBquad) quad [] r.1 "write failed" Hvalid
              (or_intror Hshort) Hr) as (pre & ev & full & Hlog & _).
  exists r.1, pre, ev. split; [exact Hr|]. split; [exact Hlog|].
  apply (f_equal length) in Hlog. rewrite length_app in Hlog.
  assert (Hlen : length r.1 = 4%nat) by (vm_compute; reflexivity).
  rewrite Hlen in Hlog. simpl in Hlog. lia.
Defined.

Lemma first_sample_adds_materials_witness :
  frame_has_been_written_ first_frame = false /\
  Object.totcol OBquad <= SHRT_MAX /\
  exists log g a : list Event,
    @write_mesh quiet_env first_frame (MkHierarchyContext OBquad) quad []
      = (log, Returned tt) /\
    @write_mesh quiet_env
      (MkUSDAbstractWriter (usd_path_ first_frame) true
         (export_time_code first_frame))
      (MkHierarchyContext OBquad) quad [] = (g, Returned tt) /\
    log = g ++ a.
Proof.
  assert (Hshort : Object.totcol OBquad <= SHRT_MAX) by (vm_compute; discriminate).
  split; [reflexivity|]. split; [exact Hshort|].
  set (r := @write_mesh quiet_env first_frame (MkHierarchyContext OBquad) quad []).
  assert (Hr : r = (r.1, Returned tt)) by (vm_compute; reflexivity).
  destruct (@first_sample_adds_materials quiet_env first_frame
              (MkHierarchyContext OBquad) quad [] r.1 eq_refl Hshort Hr)
    as (d & g & a & _ & Hlater & _ & Hlog).
  exists r.1, g, a. split; [exact Hr|]. split; [exact Hlater | exact Hlog].
Defined.

Lemma subsets_partition_polygons_witness :
  mesh_valid strip /\
  Object.totcol OBstrip <= SHRT_MAX /\
  exists log : list Event,
    @write_mesh three_slot_env (MkUSDAbstractWriter "/strip" false (f32 1))
      (MkHierarchyContext OBstrip) strip [] = (log, Returned tt) /\
    subsets_created log = [("MAred"%string, [1]); ("MAblue"%string, [0; 2])] /\
    NoDup (mjoin (subsets_created log).*2).
Proof.
  assert (Hvalid : mesh_valid strip) by by_evaluation.
  assert (Hshort : Object.totcol OBstrip <= SHRT_MAX) by (vm_compute; discriminate).
  split; [exact Hvalid|]. split; [exact Hshort|].
  set (r := @write_mesh three_slot_env (MkUSDAbstractWriter "/strip" false (f32 1))
              (MkHierarchyContext OBstrip) strip []).
  assert (Hr : r = (r.1, Returned tt)) by (vm_compute; reflexivity).
  exists r.1. split; [exact Hr|].
  destruct (@subsets_partition_polygons three_slot_env
              (MkUSDAbstractWriter "/strip" false (f32 1))
              (MkHierarchyContext OBstrip) strip [] r.1 Hvalid
              (or_intror Hshort) Hr) as [_ Hdisjoint].
  split; [vm_compute; reflexivity | exact Hdisjoint].
Defined.

Lemma no_subsets_without_choice_witness :
  mesh_valid quad /\
  (exists k : Z, Forall (fun p => MPoly.mat_nr p = k) (Mesh.mpoly quad)) /\
  exists log : list Event,
    @write_mesh quiet_env first_frame (MkHierarchyContext OBquad) quad []
      = (log, Returned tt) /\
    subsets_created log = [] /\ subset_bindings log = [].
Proof.
  assert (Hvalid : mesh_valid quad) by by_evaluation.
  assert (Hshort : Object.totcol OBquad <= SHRT_MAX) by (vm_compute; discriminate).
  assert (Hone : exists k : Z, Forall (fun p => MPoly.mat_nr p = k) (Mesh.mpoly quad)).
  { exists 1. repeat constructor. }
  split; [exact Hvalid|]. split; [exact Hone|].
  set (r := @write_mesh quiet_env first_frame (MkHierarchyContext OBquad) quad []).
  assert (Hr : r = (r.1, Returned tt)) by (vm_compute; reflexivity).
  exists r.1. split; [exact Hr|].
  exact (@no_subsets_without_choice quiet_env first_frame
           (MkHierarchyContext OBquad) quad [] r.1 Hvalid (or_intror Hshort) Hr
           (or_intror Hone)).
Defined.

Lemma slot_scan_never_ends_witness :
  SHRT_MAX < Object.totcol OBcrowded /\
  @assign_materials empty_slots_env (MkHierarchyContext OBcrowded) "/crowded" ∅ []
    = ([], Diverged).
Proof.
  assert (Hmany : SHRT_MAX < Object.totcol OBcrowded) by (vm_compute; reflexivity).
  split; [exact Hmany|].
  apply (@slot_scan_never_ends empty_slots_env (MkHierarchyContext OBcrowded)
           "/crowded" ∅ [] Hmany).
  intros act _. reflexivity.
Defined.
